(** * Trajectory logger: recorder, finalizer and reporter

    A shallow embedding of [src/trl/trainer/trajectory_logger.py]
    (class [TrajectoryLogger]) and the properties of its in-flight
    bookkeeping: the per-step limit, finalization, the clean-up of what is
    left in flight, and the reward class of the report.

    Python integers are [Z] and the rewards are IEEE-754 doubles; the two
    dictionaries of the logger are finite maps. The files written, the lines
    printed and the readings of the clock form an explicit [World], and
    every method is a function in a state-and-exception monad over the
    logger and the world, so that the system an escaping exception leaves
    behind can be observed.

    Outside the model: the directories made by [__init__], failures of the
    file system and of [json], and glob metacharacters in [output_dir]. The
    values of an outcome dictionary are taken to have the types the
    docstrings give them. *)

From Stdlib Require Import ZArith String Ascii.
From Stdlib Require Import Floats.PrimFloat.
From stdpp Require Import gmap strings list sorting pretty.

Local Open Scope Z_scope.

(** ** Text helpers *)

(** The double-quote character, for the HTML attributes of the report. *)
Definition dq : string := String (ascii_of_nat 34) EmptyString.

(** A line feed. *)
Definition nl : string := String (ascii_of_nat 10) EmptyString.

Fixpoint zeros (n : nat) : string :=
  match n with
  | O => EmptyString
  | S n' => String "0"%char (zeros n')
  end.

(** Python's [f"{n:0wd}"]: decimal digits, sign-aware zero padding to a
    total width of at least [w] characters. *)
Definition format_0d (w : nat) (n : Z) : string :=
  let sign := if n <? 0 then "-" else EmptyString in
  let digits := pretty (Z.abs n) in
  sign +:+ zeros (w - String.length sign - String.length digits)%nat +:+ digits.

(** ** Data model *)

(** [traj_key = (step, prompt_idx, gen_idx)] *)
Abbreviation Key := (Z * Z * Z)%type.

(** [turn_data]: the dictionary appended to a trajectory's ["turns"].
    Every entry but ["turn_idx"] may be missing. *)
Record Turn := mkTurn {
  turn_idx : Z;
  prompt : option string;
  response : option string;
  image_path : option string;
  image_error : option string;
}.

(** The entries [finalize_trajectories] merges into ["metadata"]. *)
Record FinalMeta := mkFinalMeta {
  mode : string;
  timestamp : string;
  trajectory_length : Z;
  done : bool;
  terminated_naturally : bool;
}.

Record Metadata := mkMetadata {
  step : Z;
  prompt_idx : Z;
  gen_idx : Z;
  final : option FinalMeta;
}.

(** One trajectory dictionary: in flight it has neither the final metadata
    nor a ["reward"]; the JSON document holds both. *)
Record Trajectory := mkTrajectory {
  trajectory_id : string;
  turns : list Turn;
  metadata : Metadata;
  reward : option float;
}.

(** One cell of the [trajectories] argument of [finalize_trajectories]: a
    dictionary read with [.get(key, default)]. *)
Record Outcome := mkOutcome {
  o_trajectory_length : option Z;
  o_done : option bool;
  o_terminated_naturally : option bool;
  o_reward : option float;
}.

(** ** Exceptions and collaborators *)

Inductive PyExn :=
| IndexError (msg : string)
| KeyError (msg : string)
| OtherException (msg : string)      (* any other instance of Exception *)
| NonException (msg : string).       (* KeyboardInterrupt, SystemExit, ... *)

(** [isinstance(e, Exception)], what [except Exception] catches. *)
Definition is_Exception (e : PyExn) : bool :=
  match e with
  | NonException _ => false
  | _ => true
  end.

(** [str(e)] *)
Definition str_exn (e : PyExn) : string :=
  match e with
  | IndexError m | KeyError m | OtherException m | NonException m => m
  end.

(** The [image] argument: an object without a [save] attribute (carrying
    [str(type(image))]), or one whose [save(path)] returns or raises. *)
Inductive Image :=
| Unsavable (type_repr : string)
| Savable (save : string -> option PyExn).

(** [processing_class.decode(prompt_ids, skip_special_tokens=True)] *)
Definition Decoder : Type := list Z -> PyExn + string.

(** ** The logger object and the world around it *)

Record TrajectoryLogger := mkLogger {
  output_dir : string;
  save_images : bool;
  save_prompts : bool;
  save_responses : bool;
  max_trajectories_per_step : option Z;
  active_trajectories : gmap Key Trajectory;
  trajectories_logged_per_step : gmap Z Z;
}.

(** Effects on the outside, in the order they happen. *)
Inductive IOEvent :=
| SavedImage (path : string)
| WroteTrajectory (name : string) (doc : Trajectory)
| WroteReport (path : string) (html : string)
| Printed (line : string).

Record World := mkWorld {
  trajectories_dir : gmap string Trajectory;  (* output_dir/trajectories *)
  io : list IOEvent;
  ticks : nat;                                (* clock readings so far *)
}.

Record Sys := mkSys {
  self : TrajectoryLogger;
  world : World;
}.

(** [TrajectoryLogger.__init__] *)
Definition init (dir : string) (images prompts responses : bool)
    (max_per_step : option Z) : TrajectoryLogger :=
  {| output_dir := dir;
     save_images := images;
     save_prompts := prompts;
     save_responses := responses;
     max_trajectories_per_step := max_per_step;
     active_trajectories := ∅;
     trajectories_logged_per_step := ∅ |}.

Definition with_active (f : gmap Key Trajectory -> gmap Key Trajectory)
    (s : Sys) : Sys :=
  let L := self s in
  {| self := {| output_dir := output_dir L;
                save_images := save_images L;
                save_prompts := save_prompts L;
                save_responses := save_responses L;
                max_trajectories_per_step := max_trajectories_per_step L;
                active_trajectories := f (active_trajectories L);
                trajectories_logged_per_step := trajectories_logged_per_step L |};
     world := world s |}.

Definition with_logged (f : gmap Z Z -> gmap Z Z) (s : Sys) : Sys :=
  let L := self s in
  {| self := {| output_dir := output_dir L;
                save_images := save_images L;
                save_prompts := save_prompts L;
                save_responses := save_responses L;
                max_trajectories_per_step := max_trajectories_per_step L;
                active_trajectories := active_trajectories L;
                trajectories_logged_per_step := f (trajectories_logged_per_step L) |};
     world := world s |}.

Definition with_world (f : World -> World) (s : Sys) : Sys :=
  {| self := self s; world := f (world s) |}.

Definition emit (ev : IOEvent) (w : World) : World :=
  {| trajectories_dir := trajectories_dir w;
     io := io w ++ [ev];
     ticks := ticks w |}.

Definition write_file (name : string) (doc : Trajectory) (w : World) : World :=
  {| trajectories_dir := <[name := doc]> (trajectories_dir w);
     io := io w ++ [WroteTrajectory name doc];
     ticks := ticks w |}.

Definition tick (w : World) : World :=
  {| trajectories_dir := trajectories_dir w;
     io := io w;
     ticks := S (ticks w) |}.

(** ** State and exceptions *)

Inductive result (A : Type) :=
| Ok (a : A)
| Raise (e : PyExn).
Arguments Ok {A} a.
Arguments Raise {A} e.

(** A method body: it transforms the system and returns or raises; the
    system it leaves behind is kept in both cases. *)
Definition M (A : Type) : Type := Sys -> Sys * result A.

Definition ret {A} (a : A) : M A := fun s => (s, Ok a).

Definition raise {A} (e : PyExn) : M A := fun s => (s, Raise e).

Definition bind {A B} (m : M A) (k : A -> M B) : M B :=
  fun s =>
    match m s with
    | (s', Ok a) => k a s'
    | (s', Raise e) => (s', Raise e)
    end.

Definition gets {A} (f : Sys -> A) : M A := fun s => (s, Ok (f s)).

Definition modify (f : Sys -> Sys) : M unit := fun s => (f s, Ok tt).

Notation "'let*' x ':=' m 'in' k" := (bind m (fun x => k))
  (at level 10, x name, m at level 100, k at level 200).

(** [for x in xs: body(x)] *)
Fixpoint for_each {A} (xs : list A) (body : A -> M unit) : M unit :=
  match xs with
  | [] => ret tt
  | x :: xs' => let* _ := body x in for_each xs' body
  end.

(** [range(n)] *)
Definition range (n : nat) : list nat := seq 0 n.

(** The system a call leaves behind, and whether it returned. *)
Definition after {A} (m : M A) (s : Sys) : Sys := fst (m s).

Definition returns {A} (m : M A) (s : Sys) : bool :=
  match snd (m s) with
  | Ok _ => true
  | Raise _ => false
  end.

(** ** The recorder *)

(** [f"step{step:06d}_p{prompt_idx:03d}_g{gen_idx:02d}"] *)
Definition traj_id_of (step prompt_idx gen_idx : Z) : string :=
  "step" +:+ format_0d 6 step +:+ "_p" +:+ format_0d 3 prompt_idx
         +:+ "_g" +:+ format_0d 2 gen_idx.

(** Reading [self.trajectories_logged_per_step[step]]: a [defaultdict(int)]
    stores the default under a missing key before returning it. *)
Definition logged_get (step : Z) : M Z :=
  fun s =>
    let c := default 0 (trajectories_logged_per_step (self s) !! step) in
    (with_logged (insert step c) s, Ok c).

(** The number of trajectories started in [step], as the counter has it. *)
Definition logged_count (L : TrajectoryLogger) (step : Z) : Z :=
  default 0 (trajectories_logged_per_step L !! step).

(** Lines 92-96, the limit check:
    [max_trajectories_per_step is not None and logged[step] >= max]. *)
Definition limit_reached (step : Z) : M bool :=
  let* limit := gets (fun s => max_trajectories_per_step (self s)) in
  match limit with
  | None => ret false
  | Some m =>
      let* c := logged_get step in
      ret (m <=? c)
  end.

(** Lines 101-112: create the trajectory on the first turn of its key. *)
Definition start_if_new (step prompt_idx gen_idx : Z) : M unit :=
  let traj_key := (step, prompt_idx, gen_idx) in
  let* known := gets (fun s => active_trajectories (self s) !! traj_key) in
  match known with
  | Some _ => ret tt
  | None =>
      let* _ := modify (with_active (insert traj_key
        {| trajectory_id := traj_id_of step prompt_idx gen_idx;
           turns := [];
           metadata := {| step := step; prompt_idx := prompt_idx;
                          gen_idx := gen_idx; final := None |};
           reward := None |})) in
      let* c := logged_get step in
      modify (with_logged (insert step (c + 1)))
  end.

(** Lines 118-121: the decoded prompt, when prompts are saved and a
    decoder is given; a failing decoder is not caught. *)
Definition prompt_entry (prompt_ids : list Z)
    (processing_class : option Decoder) : M (option string) :=
  let* enabled := gets (fun s => save_prompts (self s)) in
  match enabled, processing_class with
  | true, Some decode =>
      match decode prompt_ids with
      | inr prompt_text => ret (Some prompt_text)
      | inl e => raise e
      end
  | _, _ => ret None
  end.

(** Lines 124-125. *)
Definition response_entry (completion : string) : M (option string) :=
  let* enabled := gets (fun s => save_responses (self s)) in
  ret (if enabled then Some completion else None).

(** Lines 128-140: the image is saved at once; the result is the pair of
    the ["image_path"] and ["image_error"] entries. *)
Definition image_entries (traj_id : string) (turn_idx : Z)
    (image : option Image) : M (option string * option string) :=
  let* enabled := gets (fun s => save_images (self s)) in
  match enabled, image with
  | true, Some img =>
      let image_filename := traj_id +:+ "_turn" +:+ format_0d 2 turn_idx +:+ ".png" in
      let* dir := gets (fun s => output_dir (self s)) in
      let image_path := dir +:+ "/images/" +:+ image_filename in
      match img with
      | Savable save =>
          match save image_path with
          | None =>
              let* _ := modify (with_world (emit (SavedImage image_path))) in
              ret (Some ("images/" +:+ image_filename), None)
          | Some e =>
              if is_Exception e then ret (None, Some (str_exn e))
              else raise e
          end
      | Unsavable type_repr =>
          ret (None, Some ("Not a PIL Image: " +:+ type_repr))
      end
  | _, _ => ret (None, None)
  end.

(** Line 143: [self.active_trajectories[traj_key]["turns"].append(turn_data)]. *)
Definition append_turn (traj_key : Key) (turn_data : Turn) : M unit :=
  let* known := gets (fun s => active_trajectories (self s) !! traj_key) in
  match known with
  | None => raise (KeyError "traj_key")
  | Some t =>
      modify (with_active (insert traj_key
        {| trajectory_id := trajectory_id t;
           turns := turns t ++ [turn_data];
           metadata := metadata t;
           reward := reward t |}))
  end.

(** [TrajectoryLogger.log_turn] *)
Definition log_turn (step prompt_idx gen_idx turn_idx : Z)
    (prompt_ids : list Z) (completion : string)
    (image : option Image) (processing_class : option Decoder) : M unit :=
  let* full := limit_reached step in
  if full then ret tt
  else
    let traj_key := (step, prompt_idx, gen_idx) in
    let traj_id := traj_id_of step prompt_idx gen_idx in
    let* _ := start_if_new step prompt_idx gen_idx in
    let* prompt_text := prompt_entry prompt_ids processing_class in
    let* response_text := response_entry completion in
    let* img := image_entries traj_id turn_idx image in
    append_turn traj_key
      {| turn_idx := turn_idx;
         prompt := prompt_text;
         response := response_text;
         image_path := fst img;
         image_error := snd img |}.

(** ** The finalizer *)

(** [xs[i]] for a non-negative index. *)
Definition getitem {A} (xs : list A) (i : nat) : M A :=
  match xs !! i with
  | Some x => ret x
  | None => raise (IndexError "list index out of range")
  end.

(** [logged_traj["metadata"].update({...})] *)
Definition update_metadata (fin : FinalMeta) (t : Trajectory) : Trajectory :=
  {| trajectory_id := trajectory_id t;
     turns := turns t;
     metadata := {| step := step (metadata t);
                    prompt_idx := prompt_idx (metadata t);
                    gen_idx := gen_idx (metadata t);
                    final := Some fin |};
     reward := reward t |}.

(** [logged_traj["reward"] = r] *)
Definition set_reward (r : float) (t : Trajectory) : Trajectory :=
  {| trajectory_id := trajectory_id t;
     turns := turns t;
     metadata := metadata t;
     reward := Some r |}.

(** [print(line)] *)
Definition print (line : string) : M unit :=
  modify (with_world (emit (Printed line))).

Section Finalizer.

(** [datetime.now().isoformat()] at the [n]-th reading of the clock. *)
Variable now : nat -> string.

Definition read_clock : M string :=
  fun s => (with_world tick s, Ok (now (ticks (world s)))).

(** Lines 164-192, the body of the inner loop. *)
Definition finalize_one (trajectories : list (list Outcome)) (step : Z)
    (mode : string) (prompt_idx gen_idx : nat) : M unit :=
  let traj_key := (step, Z.of_nat prompt_idx, Z.of_nat gen_idx) in
  let* known := gets (fun s => active_trajectories (self s) !! traj_key) in
  match known with
  | None => ret tt
  | Some logged_traj =>
      let* row := getitem trajectories prompt_idx in
      let* traj := getitem row gen_idx in
      let* stamp := read_clock in
      let finalized :=
        set_reward (default 0%float (o_reward traj))
          (update_metadata
             {| mode := mode;
                timestamp := stamp;
                trajectory_length := default 0 (o_trajectory_length traj);
                done := default false (o_done traj);
                terminated_naturally :=
                  default false (o_terminated_naturally traj) |}
             logged_traj) in
      (* the dictionary held by the logger is the one updated and dumped *)
      let* _ := modify (with_active (insert traj_key finalized)) in
      let traj_id := trajectory_id finalized in
      let* _ := modify (with_world (write_file (traj_id +:+ ".json") finalized)) in
      modify (with_active (delete traj_key))
  end.

(** Lines 194-198: whatever is still in flight is cleared and counted. *)
Definition clean_up : M unit :=
  let* active := gets (fun s => active_trajectories (self s)) in
  match size active with
  | O => ret tt
  | S _ =>
      let remaining := size active in
      let* _ := modify (with_active (fun _ => ∅)) in
      print ("Warning: " +:+ pretty remaining
               +:+ " trajectories were not finalized properly")
  end.

(** [TrajectoryLogger.finalize_trajectories] *)
Definition finalize_trajectories (trajectories : list (list Outcome))
    (step : Z) (mode : string) : M unit :=
  let num_prompts := length trajectories in
  let num_generations :=
    match trajectories with
    | row0 :: _ => length row0
    | [] => O
    end in
  let* _ :=
    for_each (range num_prompts) (fun prompt_idx =>
      for_each (range num_generations) (fun gen_idx =>
        finalize_one trajectories step mode prompt_idx gen_idx)) in
  clean_up.

End Finalizer.

(** ** The reporter *)

(** [fnmatch(name, pre + "*" + suf)] *)
Definition matches_star (pre suf name : string) : bool :=
  String.prefix pre name
  && String.prefix (String.rev suf) (String.rev name)
  && (String.length pre + String.length suf <=? String.length name)%nat.

(** The file names of [output_dir/trajectories] selected by the pattern of
    lines 210-213; [glob] never lets [*] match a leading dot. *)
Definition selected (step : option Z) (name : string) : bool :=
  match step with
  | Some n => matches_star ("step" +:+ format_0d 6 n +:+ "_") ".json" name
  | None => matches_star EmptyString ".json" name && negb (String.prefix "." name)
  end.

(** [sorted(glob.glob(pattern))] *)
Definition trajectory_files (step : option Z) (w : World) : list string :=
  merge_sort String.le
    (filter (fun name => selected step name = true)
            (elements (dom (trajectories_dir w)))).

Fixpoint spaces (n : nat) : string :=
  match n with
  | O => EmptyString
  | S n' => String " "%char (spaces n')
  end.

(** One line of the document: indentation, text, line feed. *)
Definition ln (indent : nat) (text : string) : string :=
  spaces indent +:+ text +:+ nl.

(** Line 250. *)
Definition reward_class (reward : float) : string :=
  if PrimFloat.leb 0%float reward then "positive" else "negative".

(** [str(step)] for an optional step. *)
Definition str_step (step : option Z) : string :=
  match step with
  | Some n => pretty n
  | None => "None"
  end.

(** Lines 222-242. *)
Definition html_head : string :=
  ln 0 "<!DOCTYPE html>" +:+
  ln 0 "<html>" +:+
  ln 0 "<head>" +:+
  ln 4 "<title>Trajectory GRPO Logs</title>" +:+
  ln 4 "<style>" +:+
  ln 8 "body { font-family: Arial, sans-serif; margin: 20px; background: #f5f5f5; }" +:+
  ln 8 ".trajectory { background: white; margin: 20px 0; padding: 20px; border-radius: 8px; box-shadow: 0 2px 4px rgba(0,0,0,0.1); }" +:+
  ln 8 ".metadata { background: #e3f2fd; padding: 10px; border-radius: 4px; margin-bottom: 15px; }" +:+
  ln 8 ".turn { border-left: 3px solid #2196f3; padding-left: 15px; margin: 15px 0; }" +:+
  ln 8 ".turn-header { font-weight: bold; color: #1976d2; margin-bottom: 8px; }" +:+
  ln 8 ".prompt { background: #f5f5f5; padding: 10px; border-radius: 4px; margin: 8px 0; white-space: pre-wrap; }" +:+
  ln 8 ".response { background: #e8f5e9; padding: 10px; border-radius: 4px; margin: 8px 0; white-space: pre-wrap; }" +:+
  ln 8 ".image { max-width: 512px; border-radius: 4px; margin: 10px 0; }" +:+
  ln 8 "h1 { color: #1976d2; }" +:+
  ln 8 ".positive { color: #2e7d32; }" +:+
  ln 8 ".negative { color: #d32f2f; }" +:+
  ln 4 "</style>" +:+
  ln 0 "</head>" +:+
  ln 0 "<body>" +:+
  ln 4 "<h1>Trajectory GRPO Generation Logs</h1>".

(** Lines 264-295: one turn. *)
Definition html_turn (turn : Turn) : string :=
  nl +:+
  ln 8 ("<div class=" +:+ dq +:+ "turn" +:+ dq +:+ ">") +:+
  ln 12 ("<div class=" +:+ dq +:+ "turn-header" +:+ dq +:+ ">Turn "
           +:+ pretty (turn_idx turn + 1) +:+ "</div>") +:+
  match image_path turn, image_error turn with
  | Some path, _ =>
      ln 12 ("<img src=" +:+ dq +:+ path +:+ dq +:+ " class=" +:+ dq
               +:+ "image" +:+ dq +:+ " />")
  | None, Some err =>
      ln 12 ("<p style=" +:+ dq +:+ "color: red;" +:+ dq +:+ ">Image error: "
               +:+ err +:+ "</p>")
  | None, None => EmptyString
  end +:+
  match prompt turn with
  | Some text =>
      nl +:+
      ln 12 ("<div class=" +:+ dq +:+ "prompt" +:+ dq +:+ ">") +:+
      ln 16 "<strong>Prompt:</strong><br>" +:+
      ln 16 text +:+
      ln 12 "</div>"
  | None => EmptyString
  end +:+
  match response turn with
  | Some text =>
      nl +:+
      ln 12 ("<div class=" +:+ dq +:+ "response" +:+ dq +:+ ">") +:+
      ln 16 "<strong>Response:</strong><br>" +:+
      ln 16 text +:+
      ln 12 "</div>"
  | None => EmptyString
  end +:+
  nl +:+
  ln 8 "</div>".

Fixpoint concat_map {A} (f : A -> string) (xs : list A) : string :=
  match xs with
  | [] => EmptyString
  | x :: xs' => f x +:+ concat_map f xs'
  end.

Section Reporter.

(** [f"{reward:.2f}"] *)
Variable format_2f : float -> string.

(** Lines 252-260: the header of one trajectory, given its reward class. *)
Definition html_header (traj_id : string) (step length : Z)
    (class : string) (reward : float) : string :=
  nl +:+
  ln 4 ("<div class=" +:+ dq +:+ "trajectory" +:+ dq +:+ ">") +:+
  ln 8 ("<div class=" +:+ dq +:+ "metadata" +:+ dq +:+ ">") +:+
  ln 12 ("<strong>Trajectory ID:</strong> " +:+ traj_id +:+ " |") +:+
  ln 12 ("<strong>Step:</strong> " +:+ pretty step +:+ " |") +:+
  ln 12 ("<strong>Length:</strong> " +:+ pretty length +:+ " turns |") +:+
  ln 12 ("<strong>Reward:</strong> <span class=" +:+ dq +:+ class +:+ dq
           +:+ ">" +:+ format_2f reward +:+ "</span>") +:+
  ln 8 "</div>".

(** Lines 245-299: one trajectory file; [metadata['trajectory_length']]
    raises when the document was never finalized. *)
Definition html_trajectory (traj_data : Trajectory) : PyExn + string :=
  let meta := metadata traj_data in
  let reward_value := default 0%float (reward traj_data) in
  let class := reward_class reward_value in
  match final meta with
  | None => inl (KeyError "trajectory_length")
  | Some fin =>
      inr (html_header (trajectory_id traj_data) (step meta)
             (trajectory_length fin) class reward_value
           +:+ concat_map html_turn (turns traj_data)
           +:+ nl +:+ ln 4 "</div>")
  end.

(** The loop of line 244 over the sorted file names. *)
Fixpoint render_files (names : list string) (html : string) : M string :=
  match names with
  | [] => ret html
  | traj_file :: rest =>
      let* loaded := gets (fun s => trajectories_dir (world s) !! traj_file) in
      match loaded with
      | None => raise (OtherException "FileNotFoundError")
      | Some traj_data =>
          match html_trajectory traj_data with
          | inl e => raise e
          | inr block => render_files rest (html +:+ block)
          end
      end
  end.

(** [TrajectoryLogger.generate_html_report]; the result is [html_path],
    or [None] when nothing was found. *)
Definition generate_html_report (step : option Z) : M (option string) :=
  let* found := gets (fun s => trajectory_files step (world s)) in
  match found with
  | [] =>
      let* _ := print ("No trajectories found for step " +:+ str_step step) in
      ret None
  | _ :: _ =>
      let* body := render_files found html_head in
      let html := body +:+ nl +:+ ln 0 "</body>" +:+ ln 0 "</html>" in
      let* dir := gets (fun s => output_dir (self s)) in
      let html_path :=
        match step with
        | Some n => dir +:+ "/report_step" +:+ format_0d 6 n +:+ ".html"
        | None => dir +:+ "/report_all.html"
        end in
      let* _ := modify (with_world (emit (WroteReport html_path html))) in
      let* _ := print ("âœ“ HTML report saved to: " +:+ html_path) in
      ret (Some html_path)
  end.

End Reporter.

(** ** Drivers and observations *)

(** The arguments of one [log_turn] call. *)
Record LogCall := mkCall {
  c_step : Z;
  c_prompt_idx : Z;
  c_gen_idx : Z;
  c_turn_idx : Z;
  c_prompt_ids : list Z;
  c_completion : string;
  c_image : option Image;
  c_decoder : option Decoder;
}.

Definition call_key (c : LogCall) : Key :=
  (c_step c, c_prompt_idx c, c_gen_idx c).

Definition do_log (c : LogCall) : M unit :=
  log_turn (c_step c) (c_prompt_idx c) (c_gen_idx c) (c_turn_idx c)
           (c_prompt_ids c) (c_completion c) (c_image c) (c_decoder c).

(** What a training driver does with one logger. *)
Inductive Op :=
| LogTurn (c : LogCall)
| Finalize (trajectories : list (list Outcome)) (step_arg : Z) (mode_arg : string).

Definition key_step (k : Key) : Z := fst (fst k).

(** The key a trajectory dictionary carries in its metadata. *)
Definition key_of (t : Trajectory) : Key :=
  (step (metadata t), prompt_idx (metadata t), gen_idx (metadata t)).

(** The file [finalize_trajectories] writes for a key. *)
Definition file_of (k : Key) : string :=
  traj_id_of (fst (fst k)) (snd (fst k)) (snd k) +:+ ".json".

(** [traj_key in self.active_trajectories] *)
Definition in_flight (s : Sys) (k : Key) : bool :=
  match active_trajectories (self s) !! k with
  | Some _ => true
  | None => false
  end.

(** The turns held in flight for a key. *)
Definition turns_of (s : Sys) (k : Key) : list Turn :=
  match active_trajectories (self s) !! k with
  | Some t => turns t
  | None => []
  end.

(** The limit check of [log_turn], as a function of the logger. *)
Definition over_limit (s : Sys) (n : Z) : bool :=
  match max_trajectories_per_step (self s) with
  | None => false
  | Some m => m <=? logged_count (self s) n
  end.

(** A logger [L], as a rule one just constructed by [init], in a world
    with the files [dir0] and no effect yet. *)
Definition boot (L : TrajectoryLogger) (dir0 : gmap string Trajectory) : Sys :=
  {| self := L;
     world := {| trajectories_dir := dir0; io := []; ticks := O |} |}.

(** The events a call adds to the world. *)
Definition emitted {A} (m : M A) (s : Sys) : list IOEvent :=
  drop (length (io (world s))) (io (world (after m s))).

(** The names of the trajectory files written, in order. *)
Fixpoint written_names (evs : list IOEvent) : list string :=
  match evs with
  | [] => []
  | WroteTrajectory name _ :: rest => name :: written_names rest
  | _ :: rest => written_names rest
  end.

(** The lines printed, in order. *)
Fixpoint printed (evs : list IOEvent) : list string :=
  match evs with
  | [] => []
  | Printed line :: rest => line :: printed rest
  | _ :: rest => printed rest
  end.

(** The reports written, in order. *)
Fixpoint reports (evs : list IOEvent) : list string :=
  match evs with
  | [] => []
  | WroteReport path _ :: rest => path :: reports rest
  | _ :: rest => reports rest
  end.

(** The call creates the in-flight entry of its key. *)
Definition starts (c : LogCall) (s : Sys) : bool :=
  negb (in_flight s (call_key c)) && in_flight (after (do_log c) s) (call_key c).

(** The call gets past the limit check and returns: it reaches line 143. *)
Definition appends (c : LogCall) (s : Sys) : bool :=
  negb (over_limit s (c_step c)) && returns (do_log c) s.

(** [trajectories[prompt_idx][gen_idx]], when both indices are in range. *)
Definition outcome_at (trajectories : list (list Outcome))
    (p g : nat) : option Outcome :=
  match trajectories !! p with
  | Some row => row !! g
  | None => None
  end.

(** The positions the two loops of [finalize_trajectories] visit. *)
Definition num_generations (trajectories : list (list Outcome)) : nat :=
  match trajectories with
  | row0 :: _ => length row0
  | [] => O
  end.

Definition visited (trajectories : list (list Outcome)) (n : Z) (k : Key) : bool :=
  (key_step k =? n)
  && (0 <=? snd (fst k)) && (snd (fst k) <? Z.of_nat (length trajectories))
  && (0 <=? snd k) && (snd k <? Z.of_nat (num_generations trajectories)).

(** Every row is at least as long as row 0. *)
Definition covers_row0 (trajectories : list (list Outcome)) : Prop :=
  Forall (fun row => (num_generations trajectories <= length row)%nat) trajectories.

(** The record [finalize_trajectories] dumps for an in-flight trajectory. *)
Definition finalized_record (mode_arg stamp : string) (traj : Outcome)
    (logged_traj : Trajectory) : Trajectory :=
  set_reward (default 0%float (o_reward traj))
    (update_metadata
       {| mode := mode_arg;
          timestamp := stamp;
          trajectory_length := default 0 (o_trajectory_length traj);
          done := default false (o_done traj);
          terminated_naturally := default false (o_terminated_naturally traj) |}
       logged_traj).

(** The entries [log_turn] computes for a call, or the exception that
    escapes while it does. *)
Definition turn_data_of (L : TrajectoryLogger) (c : LogCall) : PyExn + Turn :=
  let traj_id := traj_id_of (c_step c) (c_prompt_idx c) (c_gen_idx c) in
  let image_filename :=
    traj_id +:+ "_turn" +:+ format_0d 2 (c_turn_idx c) +:+ ".png" in
  let text :=
    match save_prompts L, c_decoder c with
    | true, Some decode =>
        match decode (c_prompt_ids c) with
        | inr prompt_text => inr (Some prompt_text)
        | inl e => inl e
        end
    | _, _ => inr None
    end in
  let answer := if save_responses L then Some (c_completion c) else None in
  match text with
  | inl e => inl e
  | inr prompt_text =>
      match save_images L, c_image c with
      | true, Some (Savable save) =>
          match save (output_dir L +:+ "/images/" +:+ image_filename) with
          | None =>
              inr (mkTurn (c_turn_idx c) prompt_text answer
                          (Some ("images/" +:+ image_filename)) None)
          | Some e =>
              if is_Exception e
              then inr (mkTurn (c_turn_idx c) prompt_text answer None (Some (str_exn e)))
              else inl e
          end
      | true, Some (Unsavable type_repr) =>
          inr (mkTurn (c_turn_idx c) prompt_text answer None
                      (Some ("Not a PIL Image: " +:+ type_repr)))
      | _, _ => inr (mkTurn (c_turn_idx c) prompt_text answer None None)
      end
  end.

(** A turn never has both image entries. *)
Definition image_exclusive (t : Turn) : Prop :=
  image_path t = None \/ image_error t = None.

Section Driver.

Variable now : nat -> string.

Definition exec (op : Op) : M unit :=
  match op with
  | LogTurn c => do_log c
  | Finalize trajectories n mode_arg => finalize_trajectories now trajectories n mode_arg
  end.

(** The driver goes on after an exception, in the system it left. *)
Definition run (ops : list Op) (s : Sys) : Sys :=
  fold_left (fun s' op => after (exec op) s') ops s.

(** The keys whose in-flight entry is created, call by call. *)
Fixpoint started (ops : list Op) (s : Sys) : list Key :=
  match ops with
  | [] => []
  | op :: rest =>
      match op with
      | LogTurn c => if starts c s then [call_key c] else []
      | Finalize _ _ _ => []
      end ++ started rest (after (exec op) s)
  end.

End Driver.

(** The [log_turn] calls for key [k] among the operations, in call order. *)
Fixpoint calls_for (k : Key) (ops : list Op) : list LogCall :=
  match ops with
  | [] => []
  | LogTurn c :: rest =>
      if bool_decide (call_key c = k) then c :: calls_for k rest
      else calls_for k rest
  | Finalize _ _ _ :: rest => calls_for k rest
  end.

Section Recorded.

Variable now : nat -> string.

(** The calls for key [k] that appended a turn to the entry now in flight,
    in call order: [acc] holds those before [ops]; a call that gets past the
    limit check and returns is added; a [finalize_trajectories] call that
    takes the entry out of flight empties the list, since a later call
    starts a new entry. *)
Fixpoint recorded (ops : list Op) (k : Key) (s : Sys) (acc : list LogCall)
    : list LogCall :=
  match ops with
  | [] => acc
  | op :: rest =>
      let s' := after (exec now op) s in
      recorded rest k s'
        match op with
        | LogTurn c =>
            if bool_decide (call_key c = k) && appends c s then acc ++ [c] else acc
        | Finalize _ _ _ => if in_flight s' k then acc else []
        end
  end.

End Recorded.

(** ** Auxiliary states, used to describe what a call leaves behind *)

(** The entry [log_turn] creates for a key. *)
Definition fresh_trajectory (k : Key) : Trajectory :=
  {| trajectory_id := traj_id_of (fst (fst k)) (snd (fst k)) (snd k);
     turns := [];
     metadata := {| step := fst (fst k); prompt_idx := snd (fst k);
                    gen_idx := snd k; final := None |};
     reward := None |}.

(** A trajectory with one more turn. *)
Definition push (t : Turn) (tr : Trajectory) : Trajectory :=
  {| trajectory_id := trajectory_id tr;
     turns := turns tr ++ [t];
     metadata := metadata tr;
     reward := reward tr |}.

(** The system after the limit check: the counter of the step exists. *)
Definition checked (n : Z) (s : Sys) : Sys :=
  match max_trajectories_per_step (self s) with
  | Some _ => with_logged (insert n (logged_count (self s) n)) s
  | None => s
  end.

(** The system after lines 101-112. *)
Definition admitted (k : Key) (s : Sys) : Sys :=
  if in_flight s k then s
  else with_logged (insert (key_step k) (logged_count (self s) (key_step k) + 1))
         (with_active (insert k (fresh_trajectory k)) s).

(** The image file a call saves, if any. *)
Definition image_saves (L : TrajectoryLogger) (c : LogCall) : list IOEvent :=
  match save_images L, c_image c with
  | true, Some (Savable save) =>
      let path := output_dir L +:+ "/images/"
                  +:+ traj_id_of (c_step c) (c_prompt_idx c) (c_gen_idx c)
                  +:+ "_turn" +:+ format_0d 2 (c_turn_idx c) +:+ ".png" in
      match save path with
      | None => [SavedImage path]
      | Some _ => []
      end
  | _, _ => []
  end.

Definition emits (evs : list IOEvent) (w : World) : World :=
  {| trajectories_dir := trajectories_dir w;
     io := io w ++ evs;
     ticks := ticks w |}.

(** What the logger guarantees about every in-flight entry. *)
Definition well_formed (s : Sys) : Prop :=
  forall k tr, active_trajectories (self s) !! k = Some tr ->
    key_of tr = k /\ trajectory_id tr = traj_id_of (fst (fst k)) (snd (fst k)) (snd k)
    /\ final (metadata tr) = None /\ reward tr = None
    /\ Forall image_exclusive (turns tr).

(** The positions the nested loops visit, in order. *)
Definition positions (np ng : nat) : list (nat * nat) :=
  flat_map (fun p => map (pair p) (range ng)) (range np).

Definition position_key (n : Z) (x : nat * nat) : Key :=
  (n, Z.of_nat (fst x), Z.of_nat (snd x)).

(** The directory after the trajectory files among [evs] are written. *)
Fixpoint replay (evs : list IOEvent) (dir : gmap string Trajectory)
    : gmap string Trajectory :=
  match evs with
  | [] => dir
  | WroteTrajectory name doc :: rest => replay rest (<[name := doc]> dir)
  | _ :: rest => replay rest dir
  end.

(** The event of finalizing the in-flight trajectory [tr] at position [x]. *)
Definition writes_of (now : nat -> string) (trajectories : list (list Outcome))
    (mode_arg : string) (tr : Trajectory) (x : nat * nat) (ev : IOEvent) : Prop :=
  exists o i, outcome_at trajectories (fst x) (snd x) = Some o
    /\ ev = WroteTrajectory (trajectory_id tr +:+ ".json")
                            (finalized_record mode_arg (now i) o tr).

(** The world after the events [evs] of one sweep of the loops. *)
Definition wrote (evs : list IOEvent) (w : World) : World :=
  {| trajectories_dir := replay evs (trajectories_dir w);
     io := io w ++ evs;
     ticks := (ticks w + length evs)%nat |}.

(** The in-flight entries left once the keys [ks] have been visited. *)
Definition unvisited (ks : list Key) (m : gmap Key Trajectory)
    : gmap Key Trajectory :=
  filter (fun kv => fst kv ∉ ks) m.

(** [swept s xs s']: the loops, started in [s], have visited the positions
    [xs] and reached [s']: each in-flight trajectory at one of them is
    written and removed, in order, and nothing else has changed. *)
Definition swept (now : nat -> string) (trajectories : list (list Outcome))
    (n : Z) (mode_arg : string) (s : Sys) (xs : list (nat * nat)) (s' : Sys) : Prop :=
  exists evs,
    s' = with_active (unvisited (position_key n <$> xs)) (with_world (wrote evs) s)
    /\ Forall2 (fun ev x => exists tr,
                  active_trajectories (self s) !! position_key n x = Some tr
                  /\ writes_of now trajectories mode_arg tr x ev)
               evs
               (filter (fun x => in_flight s (position_key n x) = true) xs).

(** The warning of line 198. *)
Definition warning (remaining : nat) : string :=
  "Warning: " +:+ pretty remaining +:+ " trajectories were not finalized properly".

(** The configuration never changes. *)
Definition same_config (s s' : Sys) : Prop :=
  output_dir (self s') = output_dir (self s)
  /\ save_images (self s') = save_images (self s)
  /\ save_prompts (self s') = save_prompts (self s)
  /\ save_responses (self s') = save_responses (self s)
  /\ max_trajectories_per_step (self s') = max_trajectories_per_step (self s).

(** The characters of a formatted number. *)
Definition is_digit (a : ascii) : bool :=
  match a with
  | "0" | "1" | "2" | "3" | "4" | "5" | "6" | "7" | "8" | "9" => true
  | _ => false
  end%char.

Fixpoint all_chars (P : ascii -> bool) (s : string) : bool :=
  match s with
  | EmptyString => true
  | String a s' => P a && all_chars P s'
  end.

(** [finalizes s name doc]: the file [name] with content [doc] is the
    finalized form of a trajectory in flight in [s]. *)
Definition finalizes (s : Sys) (name : string) (doc : Trajectory) : Prop :=
  exists k tr,
    active_trajectories (self s) !! k = Some tr
    /\ name = trajectory_id tr +:+ ".json"
    /\ trajectory_id doc = trajectory_id tr
    /\ turns doc = turns tr
    /\ key_of doc = key_of tr
    /\ is_Some (final (metadata doc))
    /\ is_Some (reward doc).

(** The events a recorder call may add, from the system [s] it starts in:
    image files, printed lines, and finalized trajectories of [s]. *)
Definition allowed (s : Sys) (ev : IOEvent) : Prop :=
  match ev with
  | WroteTrajectory name doc => finalizes s name doc
  | WroteReport _ _ => False
  | SavedImage _ | Printed _ => True
  end.

(** ** Concrete scenarios *)

Definition demo_clock (i : nat) : string := "2025-01-01T00:00:0" +:+ pretty i.

Definition demo_call (n p g t : Z) : LogCall :=
  mkCall n p g t [] "ok" None None.

Definition demo_outcome : Outcome :=
  mkOutcome (Some 3) (Some true) None (Some 1%float).

Definition demo_pre : list Op := [LogTurn (demo_call 0 0 0 0)].

Definition demo_rest : list Op :=
  [Finalize [[demo_outcome]; [demo_outcome]] 0 "train"].

(** Turns of one trajectory arriving out of turn order, between the turns
    of another one. *)
Definition demo_calls : list LogCall :=
  [demo_call 0 0 0 1; demo_call 0 1 0 0; demo_call 0 0 0 0].

Definition demo_doc : Trajectory :=
  finalized_record "train" (demo_clock 0) demo_outcome
    {| trajectory_id := "step000000_p000_g00";
       turns := [mkTurn 1 None (Some "ok") None None;
                 mkTurn 0 None (Some "ok") None None];
       metadata := mkMetadata 0 0 0 None;
       reward := None |}.


(** Outcomes whose second row is shorter than the first one. *)
Definition demo_ragged : list (list Outcome) :=
  [[demo_outcome; demo_outcome]; [demo_outcome]].

(** Trajectories in flight at the positions (0,0) and (1,1) of step 0. *)
Definition demo_ragged_state : Sys :=
  run demo_clock [LogTurn (demo_call 0 0 0 0); LogTurn (demo_call 0 1 1 0)]
      (boot (init "out" true true true None) ∅).

(** The path [log_turn] passes to [image.save]. *)
Definition save_path (L : TrajectoryLogger) (c : LogCall) : string :=
  output_dir L +:+ "/images/"
    +:+ traj_id_of (c_step c) (c_prompt_idx c) (c_gen_idx c)
    +:+ "_turn" +:+ format_0d 2 (c_turn_idx c) +:+ ".png".


(** The decoder of the call, when one is used, returns. *)
Definition decodes (L : TrajectoryLogger) (c : LogCall) : Prop :=
  match save_prompts L, c_decoder c with
  | true, Some decode => exists text, decode (c_prompt_ids c) = inr text
  | _, _ => True
  end.


(** ** Further observations *)

(** The [save] of the call's image, if it is called, returns or raises an
    [Exception]: nothing [except Exception] would let through. *)
Definition save_settles (L : TrajectoryLogger) (c : LogCall) : Prop :=
  match save_images L, c_image c with
  | true, Some (Savable save) =>
      forall e, save (save_path L c) = Some e -> is_Exception e = true
  | _, _ => True
  end.

(** The ["prompt"] entry of a call whose decoder returns. *)
Definition prompt_of (L : TrajectoryLogger) (c : LogCall) : option string :=
  match save_prompts L, c_decoder c with
  | true, Some decode =>
      match decode (c_prompt_ids c) with
      | inr text => Some text
      | inl _ => None
      end
  | _, _ => None
  end.



(** A decoder that raises. *)
Definition demo_bad_decoder_call : LogCall :=
  mkCall 0 0 0 0 [1; 2] "ok" None (Some (fun _ => inl (OtherException "cannot decode"))).

(** An image whose [save] is interrupted. *)
Definition demo_interrupted_call : LogCall :=
  mkCall 0 0 0 0 [] "ok"
         (Some (Savable (fun _ => Some (NonException "KeyboardInterrupt")))) None.

(** The number of entries in flight for a step. *)
Definition in_flight_of_step (s : Sys) (j : Z) : nat :=
  size (filter (fun kv : Key * Trajectory => key_step (fst kv) = j)
               (active_trajectories (self s))).

(** Three trajectories in flight for step 0, none at the positions of an
    empty batch. *)
Definition demo_three_in_flight : Sys :=
  run demo_clock
      [LogTurn (demo_call 0 0 0 0); LogTurn (demo_call 0 0 1 0);
       LogTurn (demo_call 0 1 0 0)]
      (boot (init "out" true true true None) ∅).

(** The block of one trajectory file in the report. *)
Definition block_of (format_2f : float -> string) (w : World) (name : string) : string :=
  match trajectories_dir w !! name with
  | Some doc =>
      match html_trajectory format_2f doc with
      | inr block => block
      | inl _ => EmptyString
      end
  | None => EmptyString
  end.

(** Lines 307-310: where the report goes. *)
Definition report_path (dir : string) (step_arg : option Z) : string :=
  match step_arg with
  | Some n => dir +:+ "/report_step" +:+ format_0d 6 n +:+ ".html"
  | None => dir +:+ "/report_all.html"
  end.

(** The whole document for the files [names]. *)
Definition report_html (format_2f : float -> string) (w : World)
    (names : list string) : string :=
  (html_head +:+ concat_map (block_of format_2f w) names)
    +:+ nl +:+ ln 0 "</body>" +:+ ln 0 "</html>".

(** The file was written by a [finalize_trajectories] call: it has the
    final metadata. *)
Definition finalized (doc : Trajectory) : Prop := is_Some (final (metadata doc)).


(** A directory with a file that lacks the final metadata. *)
Definition demo_unfinalized_disk : Sys :=
  boot (init "out" true true true None)
       {[ "step000000_p000_g00.json" := fresh_trajectory (0, 0, 0) ]}.

(** * Properties *)

(** ** The monad *)

Lemma for_each_app {A} (xs ys : list A) (body : A -> M unit) (s : Sys) :
  for_each (xs ++ ys) body s =
  match for_each xs body s with
  | (s', Ok _) => for_each ys body s'
  | (s', Raise e) => (s', Raise e)
  end.
Proof.
  revert s. induction xs as [|x xs IH]; intros s; simpl.
  - reflexivity.
  - unfold bind. destruct (body x s) as [s1 [[]|e]]; [apply IH | reflexivity].
Qed.

(** ** One call of [log_turn] *)

Lemma limit_reached_eq n s :
  limit_reached n s = (checked n s, Ok (over_limit s n)).
Proof.
  unfold limit_reached, checked, over_limit, bind, gets, logged_get, ret, logged_count.
  destruct (max_trajectories_per_step (self s)); reflexivity.
Qed.

Lemma start_if_new_eq n p g s :
  start_if_new n p g s = (admitted (n, p, g) s, Ok tt).
Proof.
  unfold start_if_new, admitted, in_flight, bind, gets, modify, logged_get, ret.
  destruct (active_trajectories (self s) !! (n, p, g)); [reflexivity|].
  cbn. unfold with_logged, with_active, logged_count. cbn.
  rewrite insert_insert_eq. reflexivity.
Qed.

Lemma admitted_in_flight k s : in_flight (admitted k s) k = true.
Proof.
  unfold admitted. destruct (in_flight s k) eqn:E; [exact E|].
  unfold in_flight. cbn. rewrite lookup_insert_eq. reflexivity.
Qed.

Lemma config_checked n s :
  output_dir (self (checked n s)) = output_dir (self s)
  /\ save_images (self (checked n s)) = save_images (self s)
  /\ save_prompts (self (checked n s)) = save_prompts (self s)
  /\ save_responses (self (checked n s)) = save_responses (self s)
  /\ max_trajectories_per_step (self (checked n s)) = max_trajectories_per_step (self s)
  /\ active_trajectories (self (checked n s)) = active_trajectories (self s)
  /\ world (checked n s) = world s.
Proof.
  unfold checked. destruct (max_trajectories_per_step (self s)) eqn:E; cbn; rewrite ?E; tauto.
Qed.

Lemma config_admitted k s :
  output_dir (self (admitted k s)) = output_dir (self s)
  /\ save_images (self (admitted k s)) = save_images (self s)
  /\ save_prompts (self (admitted k s)) = save_prompts (self s)
  /\ save_responses (self (admitted k s)) = save_responses (self s)
  /\ max_trajectories_per_step (self (admitted k s)) = max_trajectories_per_step (self s)
  /\ world (admitted k s) = world s.
Proof.
  unfold admitted. destruct (in_flight s k); cbn; tauto.
Qed.

Lemma emits_nil s : with_world (emits []) s = s.
Proof.
  destruct s as [L [d i t]]. unfold with_world, emits. cbn.
  rewrite app_nil_r. reflexivity.
Qed.

Lemma insert_push (m : gmap Key Trajectory) k t tr :
  m !! k = Some tr -> <[k := push t tr]> m = alter (push t) k m.
Proof.
  intros H. apply map_eq. intros j. destruct (decide (k = j)) as [->|Hne].
  - rewrite lookup_insert_eq, lookup_alter_eq, H. reflexivity.
  - rewrite lookup_insert_ne, lookup_alter_ne by done. reflexivity.
Qed.

Lemma with_active_push s k t tr :
  active_trajectories (self s) !! k = Some tr ->
  with_active (insert k (push t tr)) s = with_active (alter (push t) k) s.
Proof.
  intros H. unfold with_active. rewrite (insert_push _ _ t _ H). reflexivity.
Qed.

Lemma do_log_eq c s :
  do_log c s =
  if over_limit s (c_step c) then (checked (c_step c) s, Ok tt)
  else
    let s1 := admitted (call_key c) (checked (c_step c) s) in
    match turn_data_of (self s) c with
    | inl e => (s1, Raise e)
    | inr t =>
        (with_active (alter (push t) (call_key c))
           (with_world (emits (image_saves (self s) c)) s1), Ok tt)
    end.
Proof.
  unfold do_log, log_turn. unfold bind at 1. rewrite limit_reached_eq.
  destruct (over_limit s (c_step c)); [reflexivity|].
  unfold bind at 1. rewrite start_if_new_eq. fold (call_key c).
  pose proof (admitted_in_flight (call_key c) (checked (c_step c) s)) as Hin.
  destruct (config_admitted (call_key c) (checked (c_step c) s))
    as (Hd & Hi & Hp & Hr & _ & _).
  destruct (config_checked (c_step c) s) as (Hd' & Hi' & Hp' & Hr' & _ & _).
  rewrite Hd' in Hd. rewrite Hi' in Hi. rewrite Hp' in Hp. rewrite Hr' in Hr.
  cbv zeta. set (s1 := admitted (call_key c) (checked (c_step c) s)) in *.
  unfold in_flight in Hin.
  destruct (active_trajectories (self s1) !! call_key c) as [tr|] eqn:Hk; [|discriminate].
  unfold turn_data_of, image_saves.
  unfold prompt_entry, response_entry, image_entries, append_turn.
  unfold bind, gets, modify, ret, raise. cbn beta. rewrite Hp.
  destruct (save_prompts (self s)), (c_decoder c) as [decode|];
    try destruct (decode (c_prompt_ids c)) as [e|text]; try reflexivity;
    cbn beta iota; rewrite Hr, Hi;
    destruct (save_images (self s)), (c_image c) as [[ty|save]|];
    cbn beta iota; rewrite ?Hd; try destruct (save _) as [e'|];
    try destruct (is_Exception e'); cbn beta iota; rewrite ?Hk.
  all: try reflexivity.
  all: rewrite ?emits_nil.
  all: assert (Hk' : forall f, active_trajectories (self (with_world f s1)) !! call_key c
                               = Some tr) by (intros f; exact Hk).
  all: rewrite ?Hk'.
  all: erewrite <- with_active_push by first [exact Hk | apply Hk']; reflexivity.
Qed.

(** ** The loops of [finalize_trajectories] *)

Lemma for_each_map {A B} (f : A -> B) (xs : list A) (body : B -> M unit) (s : Sys) :
  for_each (map f xs) body s = for_each xs (fun x => body (f x)) s.
Proof.
  revert s. induction xs as [|x xs IH]; intros s; simpl; [reflexivity|].
  unfold bind. destruct (body (f x) s) as [s1 [[]|e]]; [apply IH | reflexivity].
Qed.

Lemma nested_loops {A B} (xs : list A) (ys : list B) (body : A -> B -> M unit) s :
  for_each xs (fun x => for_each ys (body x)) s =
  for_each (flat_map (fun x => map (pair x) ys) xs)
           (fun xy => body (fst xy) (snd xy)) s.
Proof.
  revert s. induction xs as [|x xs IH]; intros s; simpl; [reflexivity|].
  rewrite for_each_app, for_each_map. unfold bind. simpl.
  destruct (for_each ys (body x) s) as [s1 [[]|e]]; [apply IH | reflexivity].
Qed.

Lemma NoDup_positions np ng : NoDup (positions np ng).
Proof.
  unfold positions, range. generalize 0%nat at 2.
  induction np as [|np IH]; intros a; simpl; [constructor|].
  apply NoDup_app. split; [|split].
  - apply NoDup_fmap_2; [intros ?? [=]; done | apply NoDup_seq].
  - intros [p g] [g' [[= -> ->] _]]%list_elem_of_fmap Hin.
    apply list_elem_of_In, in_flat_map in Hin as [p' [Hp' Hin]].
    apply in_seq in Hp'. apply in_map_iff in Hin as [? [[= -> _] _]]. lia.
  - apply IH.
Qed.

Lemma elem_of_positions np ng p g :
  (p, g) ∈ positions np ng <-> (p < np)%nat /\ (g < ng)%nat.
Proof.
  unfold positions, range. rewrite list_elem_of_In, in_flat_map. split.
  - intros [p' [Hp Hin]]. apply in_seq in Hp.
    apply in_map_iff in Hin as [g' [[= -> ->] Hg]]. apply in_seq in Hg. lia.
  - intros [Hp Hg]. exists p. split; [apply in_seq; lia|].
    apply in_map_iff. exists g. split; [reflexivity | apply in_seq; lia].
Qed.

Section FinalizerFacts.

Variable now : nat -> string.
Variable trajectories : list (list Outcome).
Variable n : Z.
Variable mode_arg : string.

Lemma finalize_one_eq p g s :
  finalize_one now trajectories n mode_arg p g s =
  match active_trajectories (self s) !! position_key n (p, g) with
  | None => (s, Ok tt)
  | Some tr =>
      match outcome_at trajectories p g with
      | None => (s, Raise (IndexError "list index out of range"))
      | Some o =>
          (with_active (delete (position_key n (p, g)))
             (with_world (fun w =>
                write_file (trajectory_id tr +:+ ".json")
                  (finalized_record mode_arg (now (ticks w)) o tr) (tick w)) s),
           Ok tt)
      end
  end.
Proof.
  unfold finalize_one, position_key, outcome_at, getitem, read_clock.
  unfold bind, gets, modify, ret, raise. cbn [fst snd].
  destruct (active_trajectories (self s) !! (n, Z.of_nat p, Z.of_nat g)) as [tr|];
    [|reflexivity].
  destruct (trajectories !! p) as [row|]; [|reflexivity].
  destruct (row !! g) as [o|]; [|reflexivity].
  unfold with_active, with_world. cbn. rewrite delete_insert_eq. reflexivity.
Qed.

Lemma finalize_trajectories_eq s :
  finalize_trajectories now trajectories n mode_arg s =
  match for_each (positions (length trajectories) (num_generations trajectories))
          (fun x => finalize_one now trajectories n mode_arg (fst x) (snd x)) s with
  | (s', Ok _) => clean_up s'
  | (s', Raise e) => (s', Raise e)
  end.
Proof.
  unfold finalize_trajectories. unfold bind at 1.
  fold (num_generations trajectories). rewrite nested_loops. reflexivity.
Qed.

End FinalizerFacts.

Lemma lookup_unvisited (m : gmap Key Trajectory) (ks : list Key) (j : Key) :
  unvisited ks m !! j = if decide (j ∈ ks) then None else m !! j.
Proof.
  unfold unvisited. destruct (decide (j ∈ ks)) as [Hin|Hout].
  - apply map_lookup_filter_None_2. right. intros x _ Hx. apply Hx, Hin.
  - destruct (m !! j) as [x|] eqn:E.
    + apply map_lookup_filter_Some_2; done.
    + apply map_lookup_filter_None_2. left. exact E.
Qed.

Lemma unvisited_nil (m : gmap Key Trajectory) : unvisited [] m = m.
Proof.
  apply map_eq. intros j. rewrite lookup_unvisited.
  destruct (decide (j ∈ [])) as [H|]; [|reflexivity]. inversion H.
Qed.

Lemma unvisited_snoc_delete (m : gmap Key Trajectory) ks k :
  delete k (unvisited ks m) = unvisited (ks ++ [k]) m.
Proof.
  apply map_eq. intros j. rewrite lookup_unvisited.
  destruct (decide (k = j)) as [->|Hne].
  - rewrite lookup_delete_eq, decide_True; [reflexivity|].
    apply elem_of_app. right. apply list_elem_of_singleton. reflexivity.
  - rewrite lookup_delete_ne, lookup_unvisited by done.
    destruct (decide (j ∈ ks)) as [H1|H1], (decide (j ∈ ks ++ [k])) as [H2|H2];
      try reflexivity; exfalso.
    + apply H2, elem_of_app. auto.
    + apply elem_of_app in H2 as [H2|H2]; [done|].
      apply list_elem_of_singleton in H2. congruence.
Qed.

Lemma unvisited_snoc_absent (m : gmap Key Trajectory) ks k :
  m !! k = None -> unvisited ks m = unvisited (ks ++ [k]) m.
Proof.
  intros Hk. apply map_eq. intros j. rewrite !lookup_unvisited.
  destruct (decide (j ∈ ks)) as [H1|H1], (decide (j ∈ ks ++ [k])) as [H2|H2];
    try reflexivity.
  - exfalso. apply H2, elem_of_app. auto.
  - apply elem_of_app in H2 as [H2|H2]; [done|].
    apply list_elem_of_singleton in H2. subst. exact Hk.
Qed.

Lemma replay_app evs evs' dir :
  replay (evs ++ evs') dir = replay evs' (replay evs dir).
Proof.
  revert dir. induction evs as [|[] evs IH]; intros dir; simpl; auto.
Qed.

Lemma position_key_inj n : Inj (=) (=) (position_key n).
Proof.
  intros [p g] [p' g']. unfold position_key. cbn. intros [= Hp Hg].
  f_equal; lia.
Qed.

Section Sweep.

Variable now : nat -> string.
Variable trajectories : list (list Outcome).
Variable n : Z.
Variable mode_arg : string.

Local Abbreviation body := (fun x => finalize_one now trajectories n mode_arg (fst x) (snd x)).
Local Abbreviation swept_to := (swept now trajectories n mode_arg).

Lemma swept_nil s : swept_to s [] s.
Proof.
  exists []. split; [|constructor].
  destruct s as [L [d i t]]. unfold with_active, with_world, wrote. cbn.
  rewrite unvisited_nil, app_nil_r, Nat.add_0_r. destruct L; reflexivity.
Qed.

(** One more position: the state before it is the sweep of [xs]. *)
Lemma swept_step s xs x s1 :
  swept_to s xs s1 -> x ∉ xs ->
  match active_trajectories (self s) !! position_key n x with
  | None => body x s1 = (s1, Ok tt) /\ swept_to s (xs ++ [x]) s1
  | Some tr =>
      match outcome_at trajectories (fst x) (snd x) with
      | None => body x s1 = (s1, Raise (IndexError "list index out of range"))
      | Some o => exists s2, body x s1 = (s2, Ok tt) /\ swept_to s (xs ++ [x]) s2
      end
  end.
Proof.
  intros (evs & -> & Hevs) Hx.
  assert (Hkey : position_key n x ∉ position_key n <$> xs).
  { intros [y [Hy Hin]]%list_elem_of_fmap. apply position_key_inj in Hy. subst. done. }
  destruct x as [p g]. cbn [fst snd]. rewrite finalize_one_eq.
  cbn [self with_active with_world active_trajectories].
  rewrite lookup_unvisited, decide_False by exact Hkey.
  destruct (active_trajectories (self s) !! position_key n (p, g)) as [tr|] eqn:Hact.
  - destruct (outcome_at trajectories p g) as [o|] eqn:Hout; [|reflexivity].
    eexists. split; [reflexivity|].
    exists (evs ++ [WroteTrajectory (trajectory_id tr +:+ ".json")
                      (finalized_record mode_arg (now (ticks (world s) + length evs)%nat) o tr)]).
    split.
    + unfold with_active, with_world, wrote, write_file, tick. cbn.
      rewrite unvisited_snoc_delete, fmap_app, replay_app, length_app, app_assoc.
      cbn. do 4 f_equal. lia.
    + rewrite filter_app. apply Forall2_app; [exact Hevs|].
      rewrite filter_cons_True, filter_nil by (unfold in_flight; rewrite Hact; done).
      constructor; [|constructor]. exists tr. split; [exact Hact|].
      exists o, (ticks (world s) + length evs)%nat. cbn [fst snd]. done.
  - split; [reflexivity|]. exists evs. split.
    + rewrite fmap_app. cbn [fmap list_fmap].
      unfold with_active. cbn. rewrite <- unvisited_snoc_absent by exact Hact.
      reflexivity.
    + rewrite filter_app, filter_cons_False, filter_nil, app_nil_r; [exact Hevs|].
      unfold in_flight. rewrite Hact. done.
Qed.

(** The loops over [rest], entered after [done]: they either visit all of
    it, or stop at the first position whose in-flight trajectory has no
    outcome, in the state the earlier positions left. *)
Lemma sweep_spec s rest : forall done s1,
  NoDup (done ++ rest) -> swept_to s done s1 ->
  match for_each rest body s1 with
  | (s', Ok _) =>
      swept_to s (done ++ rest) s'
      /\ (forall x, x ∈ rest -> in_flight s (position_key n x) = true ->
                   is_Some (outcome_at trajectories (fst x) (snd x)))
  | (s', Raise e) =>
      exists pre x post,
        rest = pre ++ x :: post
        /\ swept_to s (done ++ pre) s'
        /\ in_flight s (position_key n x) = true
        /\ outcome_at trajectories (fst x) (snd x) = None
        /\ e = IndexError "list index out of range"
        /\ (forall y, y ∈ pre -> in_flight s (position_key n y) = true ->
                     is_Some (outcome_at trajectories (fst y) (snd y)))
  end.
Proof.
  induction rest as [|x rest IH]; intros done s1 Hnd Hsw.
  - cbn. rewrite app_nil_r. split; [exact Hsw|]. intros x Hx. inversion Hx.
  - assert (Hx : x ∉ done).
    { apply NoDup_app in Hnd as (_ & Hd & _). intros Hin. apply (Hd x Hin). left. }
    assert (Hnd' : NoDup ((done ++ [x]) ++ rest)) by (rewrite <- app_assoc; exact Hnd).
    pose proof (swept_step s done x s1 Hsw Hx) as Hstep.
    cbn [for_each]. unfold bind.
    destruct (active_trajectories (self s) !! position_key n x) as [tr|] eqn:Hact.
    + destruct (outcome_at trajectories (fst x) (snd x)) as [o|] eqn:Hout.
      * destruct Hstep as (s2 & -> & Hsw2).
        specialize (IH (done ++ [x]) s2 Hnd' Hsw2).
        destruct (for_each rest body s2) as [s' [[]|e]].
        -- rewrite <- app_assoc in IH. destruct IH as [IH1 IH2]. split; [exact IH1|].
           intros y [->|Hy]%elem_of_cons Hfl; [rewrite Hout; eauto | eauto].
        -- destruct IH as (pre & y & post & -> & IH1 & IH2 & IH3 & IH4 & IH5).
           exists (x :: pre), y, post. rewrite <- app_assoc in IH1.
           repeat split; try done.
           intros z [->|Hz]%elem_of_cons Hfl; [rewrite Hout; eauto | eauto].
      * rewrite Hstep. exists [], x, rest. rewrite app_nil_r.
        repeat split; try done.
        -- unfold in_flight. rewrite Hact. reflexivity.
        -- intros y Hy. inversion Hy.
    + destruct Hstep as [-> Hsw2].
      specialize (IH (done ++ [x]) s1 Hnd' Hsw2).
      destruct (for_each rest body s1) as [s' [[]|e]].
      * rewrite <- app_assoc in IH. destruct IH as [IH1 IH2]. split; [exact IH1|].
        intros y [->|Hy]%elem_of_cons Hfl; [|eauto].
        unfold in_flight in Hfl. rewrite Hact in Hfl. discriminate.
      * destruct IH as (pre & y & post & -> & IH1 & IH2 & IH3 & IH4 & IH5).
        exists (x :: pre), y, post. rewrite <- app_assoc in IH1.
        repeat split; try done.
        intros z [->|Hz]%elem_of_cons Hfl; [|eauto].
        unfold in_flight in Hfl. rewrite Hact in Hfl. discriminate.
Qed.

End Sweep.

(** ** The whole of [finalize_trajectories] *)

Lemma clean_up_eq s :
  clean_up s =
  match size (active_trajectories (self s)) with
  | O => (s, Ok tt)
  | S _ =>
      (with_world (emit (Printed (warning (size (active_trajectories (self s))))))
         (with_active (fun _ => ∅) s), Ok tt)
  end.
Proof.
  unfold clean_up, print, bind, gets, modify, ret.
  destruct (size (active_trajectories (self s))); reflexivity.
Qed.

(** The system [clean_up] leaves. *)
Lemma clean_up_after s :
  active_trajectories (self (after clean_up s)) = ∅
  /\ returns clean_up s = true
  /\ world (after clean_up s) =
     emits (match size (active_trajectories (self s)) with
            | O => []
            | S _ => [Printed (warning (size (active_trajectories (self s))))]
            end) (world s)
  /\ output_dir (self (after clean_up s)) = output_dir (self s)
  /\ save_images (self (after clean_up s)) = save_images (self s)
  /\ save_prompts (self (after clean_up s)) = save_prompts (self s)
  /\ save_responses (self (after clean_up s)) = save_responses (self s)
  /\ max_trajectories_per_step (self (after clean_up s))
     = max_trajectories_per_step (self s)
  /\ trajectories_logged_per_step (self (after clean_up s))
     = trajectories_logged_per_step (self s).
Proof.
  unfold after, returns. rewrite clean_up_eq.
  destruct (size (active_trajectories (self s))) eqn:E; cbn.
  - apply map_size_empty_inv in E. rewrite E.
    repeat split. destruct (world s). unfold emits. cbn. rewrite app_nil_r. reflexivity.
  - repeat split.
Qed.

Section Finalize.

Variable now : nat -> string.
Variable trajectories : list (list Outcome).
Variable n : Z.
Variable mode_arg : string.

Local Abbreviation all_positions :=
  (positions (length trajectories) (num_generations trajectories)).

(** [finalize_trajectories] either sweeps every position and cleans up, or
    stops with an [IndexError] at the first in-flight position that has no
    outcome, before any clean-up. *)
Lemma finalize_spec s :
  match finalize_trajectories now trajectories n mode_arg s with
  | (s', Ok _) =>
      exists s1, swept now trajectories n mode_arg s all_positions s1
        /\ s' = after clean_up s1
        /\ (forall x, x ∈ all_positions -> in_flight s (position_key n x) = true ->
                      is_Some (outcome_at trajectories (fst x) (snd x)))
  | (s', Raise e) =>
      exists pre x post,
        all_positions = pre ++ x :: post
        /\ swept now trajectories n mode_arg s pre s'
        /\ in_flight s (position_key n x) = true
        /\ outcome_at trajectories (fst x) (snd x) = None
        /\ e = IndexError "list index out of range"
        /\ (forall y, y ∈ pre -> in_flight s (position_key n y) = true ->
                      is_Some (outcome_at trajectories (fst y) (snd y)))
  end.
Proof.
  rewrite finalize_trajectories_eq.
  pose proof (sweep_spec now trajectories n mode_arg s all_positions [] s
                (NoDup_positions _ _) (swept_nil _ _ _ _ s)) as H.
  cbn [app] in H.
  destruct (for_each all_positions _ s) as [s1 [[]|e]].
  - destruct H as [H1 H2]. pose proof (clean_up_after s1) as (_ & Hr & _).
    unfold returns in Hr. unfold after.
    destruct (clean_up s1) as [s' [[]|e]] eqn:E; [|discriminate].
    exists s1. rewrite E. auto.
  - exact H.
Qed.

End Finalize.

(** ** What one [log_turn] call changes *)

Lemma logged_count_checked n s j :
  logged_count (self (checked n s)) j = logged_count (self s) j.
Proof.
  unfold checked. destruct (max_trajectories_per_step (self s)); [|reflexivity].
  unfold logged_count. cbn. destruct (decide (n = j)) as [->|Hne].
  - rewrite lookup_insert_eq. reflexivity.
  - rewrite lookup_insert_ne by done. reflexivity.
Qed.

Lemma in_flight_checked n s k : in_flight (checked n s) k = in_flight s k.
Proof.
  unfold in_flight. destruct (config_checked n s) as (_ & _ & _ & _ & _ & -> & _).
  reflexivity.
Qed.

Lemma active_checked n s :
  active_trajectories (self (checked n s)) = active_trajectories (self s).
Proof. apply (config_checked n s). Qed.

Lemma world_checked n s : world (checked n s) = world s.
Proof. apply (config_checked n s). Qed.

Lemma logged_count_admitted k s j :
  logged_count (self (admitted k s)) j =
  logged_count (self s) j
  + (if negb (in_flight s k) && bool_decide (j = key_step k) then 1 else 0).
Proof.
  unfold admitted. destruct (in_flight s k); cbn; [lia|].
  unfold logged_count. cbn. case_bool_decide as Hj.
  - subst. rewrite lookup_insert_eq. reflexivity.
  - rewrite lookup_insert_ne by done. lia.
Qed.

Lemma active_admitted k s :
  active_trajectories (self (admitted k s)) =
  if in_flight s k then active_trajectories (self s)
  else <[k := fresh_trajectory k]> (active_trajectories (self s)).
Proof. unfold admitted. destruct (in_flight s k); reflexivity. Qed.

(** The in-flight map after a call, case by case. *)
Lemma do_log_active c s :
  active_trajectories (self (after (do_log c) s)) =
  if over_limit s (c_step c) then active_trajectories (self s)
  else
    let started :=
      if in_flight s (call_key c) then active_trajectories (self s)
      else <[call_key c := fresh_trajectory (call_key c)]> (active_trajectories (self s)) in
    match turn_data_of (self s) c with
    | inl _ => started
    | inr t => alter (push t) (call_key c) started
    end.
Proof.
  unfold after. rewrite do_log_eq.
  destruct (over_limit s (c_step c)); [apply active_checked|].
  cbv zeta. destruct (turn_data_of (self s) c); cbn;
    rewrite active_admitted, in_flight_checked, active_checked; reflexivity.
Qed.

Lemma do_log_returns c s :
  returns (do_log c) s =
  if over_limit s (c_step c) then true
  else match turn_data_of (self s) c with inl _ => false | inr _ => true end.
Proof.
  unfold returns. rewrite do_log_eq.
  destruct (over_limit s (c_step c)); [reflexivity|].
  cbv zeta. destruct (turn_data_of (self s) c); reflexivity.
Qed.

Lemma do_log_starts c s :
  starts c s = negb (over_limit s (c_step c)) && negb (in_flight s (call_key c)).
Proof.
  unfold starts. unfold in_flight at 2. rewrite do_log_active.
  destruct (over_limit s (c_step c)) eqn:Hover.
  - fold (in_flight s (call_key c)). destruct (in_flight s (call_key c)); reflexivity.
  - cbv zeta. unfold in_flight. 
    destruct (active_trajectories (self s) !! call_key c) eqn:Hk; [reflexivity|].
    destruct (turn_data_of (self s) c).
    + rewrite lookup_insert_eq. reflexivity.
    + rewrite lookup_alter_eq, lookup_insert_eq. reflexivity.
Qed.

Lemma do_log_logged_count c s j :
  logged_count (self (after (do_log c) s)) j =
  logged_count (self s) j
  + (if starts c s && bool_decide (j = c_step c) then 1 else 0).
Proof.
  rewrite do_log_starts. unfold after. rewrite do_log_eq.
  destruct (over_limit s (c_step c)); cbn [negb andb fst].
  - rewrite logged_count_checked. lia.
  - cbv zeta.
    assert (logged_count (self (admitted (call_key c) (checked (c_step c) s))) j
            = logged_count (self s) j
              + (if negb (in_flight s (call_key c)) && bool_decide (j = c_step c)
                 then 1 else 0)) as H.
    { rewrite logged_count_admitted, logged_count_checked, in_flight_checked.
      reflexivity. }
    destruct (turn_data_of (self s) c); cbn [fst]; exact H.
Qed.


Lemma do_log_config c s : same_config s (after (do_log c) s).
Proof.
  unfold after, same_config. rewrite do_log_eq.
  destruct (config_admitted (call_key c) (checked (c_step c) s))
    as (Hd & Hi & Hp & Hr & Hm & _).
  destruct (config_checked (c_step c) s) as (Hd' & Hi' & Hp' & Hr' & Hm' & _).
  destruct (over_limit s (c_step c)); [tauto|].
  cbv zeta. destruct (turn_data_of (self s) c); cbn; rewrite <- Hd', <- Hi', <- Hp', <- Hr', <- Hm'; tauto.
Qed.

(** A call touches the world only by saving its image. *)
Lemma do_log_world c s :
  world (after (do_log c) s) = world s
  \/ world (after (do_log c) s) = emits (image_saves (self s) c) (world s).
Proof.
  unfold after. rewrite do_log_eq.
  destruct (config_admitted (call_key c) (checked (c_step c) s)) as (_ & _ & _ & _ & _ & Hw).
  rewrite world_checked in Hw.
  destruct (over_limit s (c_step c)); [left; apply world_checked|].
  cbv zeta. destruct (turn_data_of (self s) c); cbn; rewrite Hw; auto.
Qed.

(** ** Trajectory identifiers are injective *)

Lemma all_chars_app P s1 s2 :
  all_chars P (s1 +:+ s2) = all_chars P s1 && all_chars P s2.
Proof.
  induction s1 as [|a s1 IH]; cbn; [reflexivity|].
  change (String a s1 +:+ s2) with (String a (s1 +:+ s2)). cbn.
  rewrite IH. apply andb_assoc.
Qed.

Lemma is_digit_pretty_N_char x : is_digit (pretty_N_char x) = true.
Proof. unfold pretty_N_char. repeat case_match; reflexivity. Qed.

Lemma digits_pretty_N_go x : forall s,
  all_chars is_digit s = true -> all_chars is_digit (pretty_N_go x s) = true.
Proof.
  induction (N.lt_wf_0 x) as [x _ IH]. intros s Hs.
  destruct (decide (x = 0)%N) as [->|Hx]; [rewrite pretty_N_go_0; exact Hs|].
  rewrite pretty_N_go_step by lia. apply IH; [apply N.div_lt; lia|].
  cbn. rewrite is_digit_pretty_N_char. exact Hs.
Qed.

Lemma head_pretty_N_go x : forall s,
  (0 < x)%N -> exists a r, pretty_N_go x s = String a r /\ a <> "0"%char.
Proof.
  induction (N.lt_wf_0 x) as [x _ IH]. intros s Hx.
  rewrite pretty_N_go_step by exact Hx.
  destruct (decide (x `div` 10 = 0)%N) as [Hq|Hq].
  - rewrite Hq, pretty_N_go_0. eexists _, _. split; [reflexivity|].
    assert (x < 10)%N as Hlt by (apply N.div_small_iff in Hq; lia).
    rewrite N.mod_small by exact Hlt.
    assert (x = 1 \/ x = 2 \/ x = 3 \/ x = 4 \/ x = 5 \/ x = 6
            \/ x = 7 \/ x = 8 \/ x = 9)%N as Hc by lia.
    destruct Hc as [->|[->|[->|[->|[->|[->|[->|[->| ->]]]]]]]]; discriminate.
  - apply IH; [apply N.div_lt; lia | apply N.neq_0_lt_0; exact Hq].
Qed.

(** The digits of a non-negative integer: ["0"], or a string that starts
    with another digit. *)
Lemma pretty_nonneg (a : Z) :
  0 <= a ->
  all_chars is_digit (pretty a) = true
  /\ ((a = 0 /\ pretty a = "0")
      \/ (0 < a /\ exists c r, pretty a = String c r /\ c <> "0"%char)).
Proof.
  intros Ha. destruct a as [|x|x]; [| |lia].
  - split; [reflexivity | left; done].
  - change (pretty (Z.pos x)) with (pretty_N_go (N.pos x) EmptyString).
    split; [apply digits_pretty_N_go; reflexivity|].
    right. split; [lia|]. apply head_pretty_N_go. lia.
Qed.

Lemma zeros_O s : zeros 0 +:+ s = s.
Proof. reflexivity. Qed.

Lemma zeros_S k s : zeros (S k) +:+ s = String "0" (zeros k +:+ s).
Proof. reflexivity. Qed.

Lemma zeros_pretty_inj k k' (a a' : Z) :
  0 <= a -> 0 <= a' ->
  zeros k +:+ pretty a = zeros k' +:+ pretty a' -> a = a'.
Proof.
  intros Ha Ha'. revert k'.
  induction k as [|k IH]; intros [|k'] H;
    rewrite ?zeros_O, ?zeros_S in H.
  - apply (inj pretty). exact H.
  - destruct (pretty_nonneg a Ha) as (_ & [[-> Hp]|[_ (c & r & Hp & Hc)]]);
      rewrite Hp in H; [|congruence].
    destruct (pretty_nonneg a' Ha') as (_ & [[-> _]|[_ (c & r & Hp' & _)]]); [done|].
    rewrite Hp' in H. destruct k'; discriminate.
  - destruct (pretty_nonneg a' Ha') as (_ & [[-> Hp]|[_ (c & r & Hp & Hc)]]);
      rewrite Hp in H; [|congruence].
    destruct (pretty_nonneg a Ha) as (_ & [[-> _]|[_ (c & r & Hp' & _)]]); [done|].
    rewrite Hp' in H. destruct k; discriminate.
  - injection H as H. eapply IH, H.
Qed.

Lemma all_chars_zeros k : all_chars is_digit (zeros k) = true.
Proof. induction k; cbn; auto. Qed.

Lemma format_0d_inj w : Inj (=) (=) (format_0d w).
Proof.
  intros z z' H. unfold format_0d in H.
  assert (Hd : forall k (a : Z), 0 <= a ->
            exists c r, zeros k +:+ pretty a = String c r /\ is_digit c = true).
  { intros k a Ha. destruct (pretty_nonneg a Ha) as [Hall _]. destruct k as [|k].
    - cbn. destruct (pretty a) as [|c r] eqn:E.
      + destruct (pretty_nonneg a Ha) as (_ & [[_ ?]|[_ (? & ? & ? & _)]]); congruence.
      + exists c, r. split; [reflexivity|]. cbn in Hall. 
        apply andb_true_iff in Hall. tauto.
    - eexists _, _. split; reflexivity. }
  destruct (Z.ltb_spec z 0) as [Hz|Hz], (Z.ltb_spec z' 0) as [Hz'|Hz'].
  - change ("-" +:+ ?x) with (String "-" x) in H. injection H as H.
    apply zeros_pretty_inj in H; lia.
  - change ("-" +:+ ?x) with (String "-" x) in H. exfalso.
    destruct (Hd (w - String.length EmptyString - String.length (pretty (Z.abs z')))%nat
                 (Z.abs z') ltac:(lia)) as (c & r & Hc & Hdig).
    cbn in H. cbn in Hc. rewrite Hc in H. injection H as <- _. discriminate.
  - change ("-" +:+ ?x) with (String "-" x) in H. exfalso.
    destruct (Hd (w - String.length EmptyString - String.length (pretty (Z.abs z)))%nat
                 (Z.abs z) ltac:(lia)) as (c & r & Hc & Hdig).
    cbn in H. cbn in Hc. rewrite Hc in H. injection H as -> _. discriminate.
  - cbn in H. apply zeros_pretty_inj in H; lia.
Qed.

(** No formatted number contains a character that is neither a digit nor
    the sign. *)
Lemma format_0d_chars w z :
  all_chars (fun a => is_digit a || bool_decide (a = "-"%char)) (format_0d w z) = true.
Proof.
  assert (Hmono : forall s, all_chars is_digit s = true ->
            all_chars (fun a => is_digit a || bool_decide (a = "-"%char)) s = true).
  { induction s as [|a s IH]; cbn; [done|]. intros [-> ?]%andb_true_iff. cbn. auto. }
  unfold format_0d. rewrite !all_chars_app.
  destruct (pretty_nonneg (Z.abs z) ltac:(lia)) as [Hall _].
  rewrite (Hmono _ Hall), (Hmono _ (all_chars_zeros _)).
  destruct (z <? 0); reflexivity.
Qed.

(** Two strings cut at the first occurrence of a separator. *)
Lemma split_at_separator (P : ascii -> bool) (sep : ascii) a a' x x' :
  P sep = false -> all_chars P a = true -> all_chars P a' = true ->
  a +:+ String sep x = a' +:+ String sep x' -> a = a' /\ x = x'.
Proof.
  intros Hsep. revert a'. induction a as [|c a IH]; intros [|c' a'] Ha Ha' H.
  - cbn in H. injection H as ->. done.
  - change (String c' a' +:+ ?y) with (String c' (a' +:+ y)) in H. cbn in H.
    injection H as <- _. cbn in Ha'. rewrite Hsep in Ha'. discriminate.
  - change (String c a +:+ ?y) with (String c (a +:+ y)) in H. cbn in H.
    injection H as -> _. cbn in Ha. rewrite Hsep in Ha. discriminate.
  - change (String c a +:+ ?y) with (String c (a +:+ y)) in H.
    change (String c' a' +:+ ?y) with (String c' (a' +:+ y)) in H.
    injection H as -> H. cbn in Ha, Ha'.
    apply andb_true_iff in Ha as [_ Ha]. apply andb_true_iff in Ha' as [_ Ha'].
    destruct (IH a' Ha Ha' H) as [-> ->]. done.
Qed.

Lemma string_app_assoc (s1 s2 s3 : string) :
  (s1 +:+ s2) +:+ s3 = s1 +:+ (s2 +:+ s3).
Proof.
  induction s1 as [|a s1 IH]; [reflexivity|].
  change (String a s1 +:+ s2) with (String a (s1 +:+ s2)).
  change (String a (s1 +:+ s2) +:+ s3) with (String a ((s1 +:+ s2) +:+ s3)).
  rewrite IH. reflexivity.
Qed.

Lemma file_of_inj : Inj (=) (=) file_of.
Proof.
  intros [[n p] g] [[n' p'] g']. unfold file_of, traj_id_of. cbn [fst snd].
  intros H.
  rewrite !string_app_assoc in H.
  change ("step" +:+ ?x) with (String "s" (String "t" (String "e" (String "p" x)))) in H.
  injection H as H.
  change ("_p" +:+ ?x) with (String "_" (String "p" x)) in H.
  apply (split_at_separator _ "_" _ _ _ _ eq_refl (format_0d_chars _ _)
           (format_0d_chars _ _)) in H as [Hn H].
  injection H as H.
  change ("_g" +:+ ?x) with (String "_" (String "g" x)) in H.
  apply (split_at_separator _ "_" _ _ _ _ eq_refl (format_0d_chars _ _)
           (format_0d_chars _ _)) in H as [Hp H].
  injection H as H.
  change (".json") with (String "." "json") in H.
  apply (split_at_separator _ "." _ _ _ _ eq_refl (format_0d_chars _ _)
           (format_0d_chars _ _)) in H as [Hg _].
  apply format_0d_inj in Hn, Hp, Hg. congruence.
Qed.

(** ** What one [finalize_trajectories] call changes *)

Section FinalizeFrame.

Variable now : nat -> string.
Variable trajectories : list (list Outcome).
Variable n : Z.
Variable mode_arg : string.

Local Abbreviation finalize := (finalize_trajectories now trajectories n mode_arg).
Local Abbreviation swept_to := (swept now trajectories n mode_arg).

Lemma swept_frame s xs s' :
  swept_to s xs s' ->
  same_config s s'
  /\ trajectories_logged_per_step (self s') = trajectories_logged_per_step (self s)
  /\ active_trajectories (self s')
     = unvisited (position_key n <$> xs) (active_trajectories (self s))
  /\ exists evs,
       world s' = wrote evs (world s)
       /\ Forall2 (fun ev x => exists tr,
                     active_trajectories (self s) !! position_key n x = Some tr
                     /\ writes_of now trajectories mode_arg tr x ev)
                  evs (filter (fun x => in_flight s (position_key n x) = true) xs).
Proof.
  intros (evs & -> & H). unfold same_config. cbn. repeat split. eauto.
Qed.

(** Every event of a sweep writes the finalized form of a trajectory that
    was in flight. *)
Lemma swept_events s xs evs :
  Forall2 (fun ev x => exists tr,
             active_trajectories (self s) !! position_key n x = Some tr
             /\ writes_of now trajectories mode_arg tr x ev)
          evs (filter (fun x => in_flight s (position_key n x) = true) xs) ->
  Forall (fun ev => exists name doc, ev = WroteTrajectory name doc
                                     /\ finalizes s name doc) evs.
Proof.
  generalize (filter (fun x => in_flight s (position_key n x) = true) xs).
  intros l H. induction H as [|ev x evs l (tr & Hact & o & i & Ho & ->) _ IH];
    constructor; [|exact IH].
  eexists _, _. split; [reflexivity|].
  exists (position_key n x), tr. repeat split; try done; cbn; eauto.
Qed.

Lemma finalize_frame s :
  same_config s (after finalize s)
  /\ trajectories_logged_per_step (self (after finalize s))
     = trajectories_logged_per_step (self s)
  /\ (forall k tr, active_trajectories (self (after finalize s)) !! k = Some tr ->
                   active_trajectories (self s) !! k = Some tr)
  /\ exists evs tail,
       world (after finalize s) = emits tail (wrote evs (world s))
       /\ Forall (fun ev => exists name doc, ev = WroteTrajectory name doc
                                             /\ finalizes s name doc) evs
       /\ (tail = [] \/ exists r, tail = [Printed (warning r)]).
Proof.
  pose proof (finalize_spec now trajectories n mode_arg s) as H. unfold after.
  destruct (finalize s) as [s' [[]|e]]; cbn [fst].
  - destruct H as (s1 & Hsw & -> & _).
    destruct (swept_frame _ _ _ Hsw) as (Hc & Hl & Ha & evs & Hw & Hev).
    destruct (clean_up_after s1) as (Ha' & _ & Hw' & Hd & Hi & Hp & Hr & Hm & Hl').
    unfold same_config in *. rewrite Hd, Hi, Hp, Hr, Hm, Hl', Ha', Hw', Hw.
    repeat split; try tauto.
    + intros k tr Hk. rewrite lookup_empty in Hk. discriminate.
    + eexists evs, _. split; [reflexivity|]. split; [eapply swept_events, Hev|].
      destruct (size _); eauto.
  - destruct H as (pre & x & post & _ & Hsw & _).
    destruct (swept_frame _ _ _ Hsw) as (Hc & Hl & Ha & evs & Hw & Hev).
    repeat split; try apply Hc; try exact Hl.
    + intros k tr. rewrite Ha, lookup_unvisited. case_decide; [discriminate|done].
    + exists evs, []. split; [|split; [eapply swept_events, Hev | auto]].
      rewrite Hw. destruct (wrote evs (world s)). unfold emits. cbn.
      rewrite app_nil_r. reflexivity.
Qed.

End FinalizeFrame.

(** ** The entries of a turn *)

Lemma turn_data_of_turn_idx L c t :
  turn_data_of L c = inr t -> turn_idx t = c_turn_idx c.
Proof.
  unfold turn_data_of. intros H.
  repeat (case_match; try discriminate); simplify_eq; reflexivity.
Qed.

Lemma turn_data_of_exclusive L c t :
  turn_data_of L c = inr t -> image_exclusive t.
Proof.
  unfold turn_data_of, image_exclusive. intros H.
  repeat (case_match; try discriminate); simplify_eq; cbn; auto.
Qed.

Lemma turn_data_of_config s s' c :
  same_config s s' -> turn_data_of (self s') c = turn_data_of (self s) c.
Proof.
  intros (Hd & Hi & Hp & Hr & _). unfold turn_data_of. rewrite Hd, Hi, Hp, Hr.
  reflexivity.
Qed.

(** ** Invariants of a run *)

Lemma same_config_refl s : same_config s s.
Proof. unfold same_config. tauto. Qed.

Lemma same_config_trans s1 s2 s3 :
  same_config s1 s2 -> same_config s2 s3 -> same_config s1 s3.
Proof. unfold same_config. intros (?&?&?&?&?) (?&?&?&?&?). repeat split; congruence. Qed.

Lemma well_formed_boot dir images prompts responses limit dir0 :
  well_formed (boot (init dir images prompts responses limit) dir0).
Proof. intros k tr H. cbn in H. rewrite lookup_empty in H. discriminate. Qed.

Lemma well_formed_fresh k :
  key_of (fresh_trajectory k) = k
  /\ trajectory_id (fresh_trajectory k) = traj_id_of (fst (fst k)) (snd (fst k)) (snd k)
  /\ final (metadata (fresh_trajectory k)) = None
  /\ reward (fresh_trajectory k) = None
  /\ Forall image_exclusive (turns (fresh_trajectory k)).
Proof. destruct k as [[a b] c]. cbn. repeat split. constructor. Qed.

Lemma do_log_well_formed c s :
  well_formed s -> well_formed (after (do_log c) s).
Proof.
  intros Hwf k tr. rewrite do_log_active.
  destruct (over_limit s (c_step c)); [apply Hwf|]. cbv zeta.
  assert (Hstarted : forall tr',
    (if in_flight s (call_key c) then active_trajectories (self s)
     else <[call_key c := fresh_trajectory (call_key c)]> (active_trajectories (self s)))
      !! k = Some tr' ->
    key_of tr' = k
    /\ trajectory_id tr' = traj_id_of (fst (fst k)) (snd (fst k)) (snd k)
    /\ final (metadata tr') = None /\ reward tr' = None
    /\ Forall image_exclusive (turns tr')).
  { intros tr'. destruct (in_flight s (call_key c)); [apply Hwf|].
    destruct (decide (call_key c = k)) as [<-|Hne].
    - rewrite lookup_insert_eq. intros [= <-]. apply well_formed_fresh.
    - rewrite lookup_insert_ne by done. apply Hwf. }
  destruct (turn_data_of (self s) c) as [e|t] eqn:Ht; [apply Hstarted|].
  destruct (decide (call_key c = k)) as [<-|Hne].
  - rewrite lookup_alter_eq.
    destruct (_ !! call_key c) as [tr'|] eqn:Hk; [|discriminate].
    intros [= <-]. destruct (Hstarted tr' eq_refl) as (H1 & H2 & H3 & H4 & H5).
    repeat split; try done. cbn. apply Forall_app. split; [exact H5|].
    constructor; [|constructor]. eapply turn_data_of_exclusive, Ht.
  - rewrite lookup_alter_ne by done. apply Hstarted.
Qed.

Section Runs.

Variable now : nat -> string.

Lemma exec_well_formed op s :
  well_formed s -> well_formed (after (exec now op) s).
Proof.
  destruct op as [c|trajectories n mode_arg]; cbn [exec].
  - apply do_log_well_formed.
  - intros Hwf k tr Hk.
    apply (finalize_frame now trajectories n mode_arg s) in Hk. apply Hwf, Hk.
Qed.

Lemma exec_config op s : same_config s (after (exec now op) s).
Proof.
  destruct op as [c|trajectories n mode_arg]; cbn [exec].
  - apply do_log_config.
  - apply finalize_frame.
Qed.

Lemma exec_logged_count op s j :
  logged_count (self s) j <= logged_count (self (after (exec now op) s)) j.
Proof.
  destruct op as [c|trajectories n mode_arg]; cbn [exec].
  - rewrite do_log_logged_count. case_match; lia.
  - destruct (finalize_frame now trajectories n mode_arg s) as (_ & Hl & _).
    unfold logged_count. rewrite Hl. lia.
Qed.

Lemma exec_over_limit op s j :
  over_limit s j = true -> over_limit (after (exec now op) s) j = true.
Proof.
  unfold over_limit. destruct (exec_config op s) as (_ & _ & _ & _ & ->).
  destruct (max_trajectories_per_step (self s)) as [m|]; [|done].
  pose proof (exec_logged_count op s j) as Hmono. intros H%Z.leb_le.
  apply Z.leb_le. lia.
Qed.

Lemma run_app ops ops' s : run now (ops ++ ops') s = run now ops' (run now ops s).
Proof. unfold run. apply fold_left_app. Qed.

Lemma run_cons op ops s : run now (op :: ops) s = run now ops (after (exec now op) s).
Proof. reflexivity. Qed.

Lemma run_well_formed ops s : well_formed s -> well_formed (run now ops s).
Proof.
  revert s. induction ops as [|op ops IH]; intros s Hwf; [exact Hwf|].
  rewrite run_cons. apply IH, exec_well_formed, Hwf.
Qed.

Lemma run_config ops s : same_config s (run now ops s).
Proof.
  revert s. induction ops as [|op ops IH]; intros s; [apply same_config_refl|].
  rewrite run_cons. eapply same_config_trans; [apply exec_config | apply IH].
Qed.

Lemma run_over_limit ops s j :
  over_limit s j = true -> over_limit (run now ops s) j = true.
Proof.
  revert s. induction ops as [|op ops IH]; intros s H; [exact H|].
  rewrite run_cons. apply IH, exec_over_limit, H.
Qed.

(** The events of one operation. *)
Lemma exec_events op s :
  exists evs,
    io (world (after (exec now op) s)) = io (world s) ++ evs
    /\ trajectories_dir (world (after (exec now op) s))
       = replay evs (trajectories_dir (world s))
    /\ Forall (allowed s) evs.
Proof.
  destruct op as [c|trajectories n mode_arg]; cbn [exec].
  - destruct (do_log_world c s) as [->| ->].
    + exists []. rewrite app_nil_r. repeat split. constructor.
    + exists (image_saves (self s) c). repeat split.
      * unfold image_saves. repeat case_match; reflexivity.
      * unfold image_saves. repeat case_match; repeat constructor.
  - destruct (finalize_frame now trajectories n mode_arg s)
      as (_ & _ & _ & evs & tail & -> & Hev & Htail).
    exists (evs ++ tail). cbn. rewrite app_assoc. repeat split.
    + rewrite replay_app. destruct Htail as [->|[r ->]]; reflexivity.
    + apply Forall_app. split.
      * eapply Forall_impl; [exact Hev|]. intros ev (name & doc & -> & H). exact H.
      * destruct Htail as [->|[r ->]]; repeat constructor.
Qed.

End Runs.

Section RunEvents.

Variable now : nat -> string.

(** The events of a run, under an invariant [I] of its operations: every
    one of them satisfies any property [P] that [I] grants to the events
    allowed in a state. *)
Lemma run_events (I : Sys -> Prop) (P : IOEvent -> Prop) ops :
  (forall s op, op ∈ ops -> I s -> I (after (exec now op) s)) ->
  (forall s ev, I s -> allowed s ev -> P ev) ->
  forall s, I s ->
  I (run now ops s)
  /\ exists evs,
       io (world (run now ops s)) = io (world s) ++ evs
       /\ trajectories_dir (world (run now ops s))
          = replay evs (trajectories_dir (world s))
       /\ Forall P evs.
Proof.
  intros Hstep HP. induction ops as [|op ops IH]; intros s HI.
  - split; [exact HI|]. exists []. cbn. rewrite app_nil_r. repeat split. constructor.
  - rewrite run_cons.
    destruct (exec_events now op s) as (evs1 & Hio1 & Hdir1 & Hall1).
    assert (HI1 : I (after (exec now op) s)) by (apply Hstep; [left | exact HI]).
    destruct IH with (s := after (exec now op) s) as (HI2 & evs2 & Hio2 & Hdir2 & Hall2).
    { intros s' op' Hin. apply Hstep. right. exact Hin. }
    { exact HI1. }
    split; [exact HI2|]. exists (evs1 ++ evs2).
    rewrite Hio2, Hio1, Hdir2, Hdir1, app_assoc, replay_app. repeat split.
    apply Forall_app. split; [|exact Hall2].
    eapply Forall_impl; [exact Hall1|]. intros ev. apply HP, HI.
Qed.

Lemma replay_lookup_other evs dir name :
  Forall (fun ev => forall name' doc, ev = WroteTrajectory name' doc -> name' <> name) evs ->
  replay evs dir !! name = dir !! name.
Proof.
  intros H. revert dir. induction H as [|ev evs Hev _ IH]; intros dir; [reflexivity|].
  destruct ev as [path|name' doc|path html|line]; cbn; rewrite IH; try reflexivity.
  apply lookup_insert_ne. eapply Hev. reflexivity.
Qed.

(** A key that is not in flight stays out of flight, and out of the
    files, as long as every call for it finds the limit reached. *)
Lemma run_key_barred k ops s :
  well_formed s -> in_flight s k = false ->
  ((exists c, LogTurn c ∈ ops /\ call_key c = k) -> over_limit s (key_step k) = true) ->
  in_flight (run now ops s) k = false
  /\ exists evs,
       io (world (run now ops s)) = io (world s) ++ evs
       /\ trajectories_dir (world (run now ops s))
          = replay evs (trajectories_dir (world s))
       /\ Forall (fun ev => forall name doc, ev = WroteTrajectory name doc ->
                    name <> file_of k /\ key_of doc <> k) evs.
Proof.
  intros Hwf Hk Hbar.
  set (I := fun s' => well_formed s' /\ in_flight s' k = false
                      /\ ((exists c, LogTurn c ∈ ops /\ call_key c = k) ->
                          over_limit s' (key_step k) = true)).
  destruct (run_events I
    (fun ev => forall name doc, ev = WroteTrajectory name doc ->
               name <> file_of k /\ key_of doc <> k) ops) with (s := s)
    as ((_ & Hk' & _) & Hev).
  - intros s' op Hin (Hwf' & Hk' & Hbar'). split; [apply exec_well_formed, Hwf'|].
    split; [|intros Hc; apply exec_over_limit, Hbar', Hc].
    destruct op as [c|trajectories n mode_arg]; cbn [exec].
    + unfold in_flight. rewrite do_log_active.
      destruct (over_limit s' (c_step c)) eqn:Hover; [exact Hk'|]. cbv zeta.
      assert (Hne : call_key c <> k).
      { intros <-. change (c_step c) with (key_step (call_key c)) in Hover.
        rewrite Hbar' in Hover by eauto. discriminate. }
      unfold in_flight in Hk'.
      destruct (turn_data_of (self s') c); rewrite ?lookup_alter_ne by done;
        destruct (in_flight s' (call_key c)); rewrite ?lookup_insert_ne by done;
        exact Hk'.
    + unfold in_flight.
      destruct (active_trajectories (self (after _ s')) !! k) as [tr|] eqn:E; [|done].
      apply (finalize_frame now trajectories n mode_arg s') in E.
      unfold in_flight in Hk'. rewrite E in Hk'. discriminate.
  - intros s' ev (Hwf' & Hk' & _) Hal name doc ->.
    destruct Hal as (k' & tr & Hact & -> & _ & _ & Hkey & _).
    destruct (Hwf' k' tr Hact) as (Hk1 & Hid & _).
    assert (k' <> k).
    { intros ->. unfold in_flight in Hk'. rewrite Hact in Hk'. discriminate. }
    split; [|congruence].
    rewrite Hid. change (traj_id_of _ _ _ +:+ ".json") with (file_of k').
    intros ?%file_of_inj. done.
  - unfold I. auto.
  - split; [exact Hk'|exact Hev].
Qed.

End RunEvents.

(** ** A [finalize_trajectories] call that returns *)

Lemma emitted_app {A} (m : M A) s evs :
  io (world (after m s)) = io (world s) ++ evs -> emitted m s = evs.
Proof. intros H. unfold emitted. rewrite H. apply drop_app_length. Qed.

Lemma outcome_at_covered trajectories p g :
  covers_row0 trajectories ->
  (p < length trajectories)%nat -> (g < num_generations trajectories)%nat ->
  is_Some (outcome_at trajectories p g).
Proof.
  intros Hcov Hp Hg. unfold outcome_at.
  destruct (trajectories !! p) as [row|] eqn:E.
  - apply lookup_lt_is_Some. unfold covers_row0 in Hcov.
    rewrite Forall_forall in Hcov. specialize (Hcov row).
    assert (row ∈ trajectories) as Hin by (eapply list_elem_of_lookup_2, E).
    specialize (Hcov Hin). lia.
  - apply lookup_ge_None in E. lia.
Qed.

Lemma visited_positions trajectories n k :
  k ∈ position_key n <$> positions (length trajectories) (num_generations trajectories)
  <-> visited trajectories n k = true.
Proof.
  destruct k as [[j p] g]. unfold visited, key_step. cbn [fst snd].
  rewrite !andb_true_iff, Z.eqb_eq, !Z.leb_le, !Z.ltb_lt. split.
  - intros [[p' g'] [[= -> -> ->] Hin]]%list_elem_of_fmap.
    apply elem_of_positions in Hin. cbn. lia.
  - intros ((((-> & Hp0) & Hp) & Hg0) & Hg). apply list_elem_of_fmap.
    exists (Z.to_nat p, Z.to_nat g). split.
    + unfold position_key. cbn. rewrite !Z2Nat.id by lia. reflexivity.
    + apply elem_of_positions. lia.
Qed.

Lemma unvisited_positions (trajectories : list (list Outcome)) (n : Z)
    (m : gmap Key Trajectory) :
  unvisited (position_key n <$> positions (length trajectories)
                                          (num_generations trajectories)) m
  = filter (fun kv => visited trajectories n (fst kv) = false) m.
Proof.
  unfold unvisited. apply map_filter_ext. intros k tr _. cbn [fst].
  rewrite visited_positions. destruct (visited trajectories n k); split; congruence.
Qed.


Lemma written_names_app evs evs' :
  written_names (evs ++ evs') = written_names evs ++ written_names evs'.
Proof. induction evs as [|[] evs IH]; cbn; rewrite ?IH; reflexivity. Qed.

Section FinalizeReturns.

Variable now : nat -> string.
Variable trajectories : list (list Outcome).
Variable n : Z.
Variable mode_arg : string.

Local Abbreviation finalize := (finalize_trajectories now trajectories n mode_arg).
Local Abbreviation all_positions :=
  (positions (length trajectories) (num_generations trajectories)).

(** The events of the loops for the in-flight positions [xs]. *)
Local Abbreviation sweep_events s :=
  (Forall2 (fun ev x => exists tr,
              active_trajectories (self s) !! position_key n x = Some tr
              /\ writes_of now trajectories mode_arg tr x ev)).

Lemma finalize_returns s :
  covers_row0 trajectories -> returns finalize s = true.
Proof.
  intros Hcov. pose proof (finalize_spec now trajectories n mode_arg s) as H.
  unfold returns. destruct (finalize s) as [s' [[]|e]]; [reflexivity|].
  destruct H as (pre & [p g] & post & Hpos & _ & _ & Hnone & _).
  assert ((p, g) ∈ all_positions) as Hin.
  { rewrite Hpos. apply elem_of_app. right. left. }
  apply elem_of_positions in Hin as [Hp Hg].
  destruct (outcome_at_covered trajectories p g Hcov Hp Hg) as [o Ho].
  cbn in Hnone. congruence.
Qed.

(** A call that returns has swept every position and cleaned up. *)
Lemma finalize_ok s :
  returns finalize s = true ->
  exists evs,
    sweep_events s evs
      (filter (fun x => in_flight s (position_key n x) = true) all_positions)
    /\ active_trajectories (self (after finalize s)) = ∅
    /\ world (after finalize s)
       = emits
           (match size (filter (fun kv => visited trajectories n (fst kv) = false)
                               (active_trajectories (self s))) with
            | O => []
            | S r => [Printed (warning (S r))]
            end)
           (wrote evs (world s))
    /\ (forall x, x ∈ all_positions -> in_flight s (position_key n x) = true ->
                  is_Some (outcome_at trajectories (fst x) (snd x))).
Proof.
  intros Hret. pose proof (finalize_spec now trajectories n mode_arg s) as H.
  unfold returns in Hret. unfold after.
  destruct (finalize s) as [s' [[]|e]]; [|discriminate]. cbn [fst].
  destruct H as (s1 & Hsw & -> & Hout).
  destruct (swept_frame _ _ _ _ _ _ _ Hsw) as (_ & _ & Ha & evs & Hw & Hev).
  destruct (clean_up_after s1) as (Ha' & _ & Hw' & _).
  exists evs. split; [exact Hev|]. split; [exact Ha'|]. split; [|exact Hout].
  rewrite Ha, unvisited_positions, Hw in Hw'. rewrite Hw'.
  destruct (size (filter _ (active_trajectories (self s)))) eqn:E; reflexivity.
Qed.

Lemma sweep_events_written s evs xs :
  sweep_events s evs xs ->
  printed evs = [] /\ reports evs = []
  /\ Forall2 (fun name x => exists tr,
                active_trajectories (self s) !! position_key n x = Some tr
                /\ name = trajectory_id tr +:+ ".json")
             (written_names evs) xs.
Proof.
  induction 1 as [|ev x evs xs (tr & Hact & o & i & _ & ->) _ (IH1 & IH2 & IH3)];
    cbn; [repeat split; constructor|].
  repeat split; [exact IH1 | exact IH2 |]. constructor; [eauto | exact IH3].
Qed.

Lemma sweep_events_lookup s evs xs x tr :
  sweep_events s evs xs -> x ∈ xs ->
  active_trajectories (self s) !! position_key n x = Some tr ->
  exists o i, outcome_at trajectories (fst x) (snd x) = Some o
    /\ WroteTrajectory (trajectory_id tr +:+ ".json")
                       (finalized_record mode_arg (now i) o tr) ∈ evs.
Proof.
  intros Hev Hin Hact. apply list_elem_of_lookup in Hin as [j Hj].
  destruct (Forall2_lookup_r _ _ _ _ _ Hev Hj) as (ev & Hev_j & tr' & Hact' & o & i & Ho & ->).
  rewrite Hact in Hact'. injection Hact' as <-.
  exists o, i. split; [exact Ho|]. eapply list_elem_of_lookup_2, Hev_j.
Qed.

End FinalizeReturns.



(** * The properties of the specification *)

(** ** The per-step quota *)

Lemma started_count now ops : forall s j,
  Z.of_nat (length (filter (fun k => key_step k = j) (started now ops s)))
  = logged_count (self (run now ops s)) j - logged_count (self s) j.
Proof.
  induction ops as [|op ops IH]; intros s j; [cbn; lia|].
  rewrite run_cons. cbn [started]. rewrite filter_app, length_app, Nat2Z.inj_add, IH.
  destruct op as [c|trajectories n mode_arg]; cbn [exec].
  - rewrite (do_log_logged_count c s j).
    destruct (starts c s); cbn [andb].
    + case_bool_decide as Hj.
      * rewrite filter_cons_True by (subst; reflexivity). cbn. lia.
      * rewrite filter_cons_False by (intros Hk; apply Hj; symmetry; exact Hk). cbn. lia.
    + cbn. lia.
  - destruct (finalize_frame now trajectories n mode_arg s) as (_ & Hl & _).
    assert (logged_count (self (after (finalize_trajectories now trajectories n mode_arg) s)) j
            = logged_count (self s) j) as Heq
      by (unfold logged_count; rewrite Hl; reflexivity).
    rewrite Heq. cbn. lia.
Qed.

Lemma logged_count_bounded now m ops : forall s j,
  max_trajectories_per_step (self s) = Some m ->
  logged_count (self s) j <= m ->
  logged_count (self (run now ops s)) j <= m.
Proof.
  induction ops as [|op ops IH]; intros s j Hm Hle; [exact Hle|].
  rewrite run_cons. apply IH.
  - destruct (exec_config now op s) as (_ & _ & _ & _ & ->). exact Hm.
  - destruct op as [c|trajectories n mode_arg]; cbn [exec].
    + rewrite do_log_logged_count, do_log_starts. unfold over_limit. rewrite Hm.
      destruct (m <=? logged_count (self s) (c_step c)) eqn:E; cbn [negb andb]; [lia|].
      apply Z.leb_gt in E.
      destruct (in_flight s (call_key c)); cbn [negb andb]; [lia|].
      case_bool_decide; subst; lia.
    + destruct (finalize_frame now trajectories n mode_arg s) as (_ & Hl & _).
      unfold logged_count. rewrite Hl. exact Hle.
Qed.

(** C3: with a per-step maximum [m] configured, whatever the driver does
    with a new logger (any [log_turn] calls, for distinct or repeated keys,
    interleaved in any order and with any [finalize_trajectories] calls),
    the number of in-flight entries created for a step [j] never exceeds
    [m]. *)
Theorem started_within_quota now dir images prompts responses m dir0 ops j :
  0 <= m ->
  Z.of_nat (length (filter (fun k => key_step k = j)
    (started now ops (boot (init dir images prompts responses (Some m)) dir0))))
  <= m.
Proof.
  intros Hm. rewrite started_count.
  set (s0 := boot (init dir images prompts responses (Some m)) dir0).
  assert (H0 : logged_count (self s0) j = 0).
  { unfold logged_count. cbn. rewrite lookup_empty. reflexivity. }
  pose proof (logged_count_bounded now m ops s0 j eq_refl) as H.
  rewrite H0 in *. specialize (H Hm). lia.
Qed.

Lemma started_within_quota_witness :
  0 <= 1 /\
  Z.of_nat (length (filter (fun k => key_step k = 0)
    (started demo_clock
       [LogTurn (demo_call 0 0 0 0); LogTurn (demo_call 0 1 0 0);
        LogTurn (demo_call 0 0 0 1)]
       (boot (init "out" true true true (Some 1)) ∅))))
  <= 1.
Proof.
  split; [lia|]. apply started_within_quota. lia.
Defined.

(** C4: when the first [log_turn] call for a key arrives with the limit of
    its step already reached, the call creates no in-flight entry and leaves
    every counter as it is; and whatever the driver does afterwards, the key
    is never in flight, no trajectory file is written for it, and its file
    in the trajectories directory is the one that was there before the
    logger existed: the loop body of a later [finalize_trajectories] that
    has an outcome for the key skips its position and changes nothing. *)
Theorem quota_exhausted_key_absent now dir images prompts responses m dir0
    pre c rest :
  let s0 := boot (init dir images prompts responses (Some m)) dir0 in
  let s := run now pre s0 in
  let k := call_key c in
  (forall c', LogTurn c' ∈ pre -> call_key c' <> k) ->
  m <= logged_count (self s) (c_step c) ->
  (starts c s = false
   /\ returns (do_log c) s = true
   /\ in_flight (after (do_log c) s) k = false
   /\ (forall j, logged_count (self (after (do_log c) s)) j = logged_count (self s) j)
   /\ active_trajectories (self (after (do_log c) s)) = active_trajectories (self s)
   /\ world (after (do_log c) s) = world s)
  /\ let s' := run now (pre ++ LogTurn c :: rest) s0 in
     in_flight s' k = false
     /\ (forall name doc, WroteTrajectory name doc ∈ io (world s') ->
           name <> file_of k /\ key_of doc <> k)
     /\ trajectories_dir (world s') !! file_of k = dir0 !! file_of k
     /\ (forall trajectories mode_arg p g,
           position_key (c_step c) (p, g) = k ->
           finalize_one now trajectories (c_step c) mode_arg p g s' = (s', Ok tt)).
Proof.
  intros s0 s k Hpre Hfull.
  assert (Hwf0 : well_formed s0) by apply well_formed_boot.
  assert (Hover : over_limit s (key_step k) = true).
  { destruct (run_config now pre s0) as (_ & _ & _ & _ & Hmax). fold s in Hmax.
    unfold over_limit. rewrite Hmax. cbn. apply Z.leb_le. exact Hfull. }
  destruct (run_key_barred now k pre s0 Hwf0) as (Hk & evs1 & Hio1 & Hdir1 & Hev1).
  { unfold in_flight. cbn. rewrite lookup_empty. reflexivity. }
  { intros (c' & Hin & Hc'). destruct (Hpre c' Hin Hc'). }
  fold s in Hk, Hio1, Hdir1.
  destruct (run_key_barred now k (LogTurn c :: rest) s) as (Hk' & evs2 & Hio2 & Hdir2 & Hev2).
  { apply run_well_formed, Hwf0. }
  { exact Hk. }
  { intros _. exact Hover. }
  split.
  - change (key_step k) with (c_step c) in Hover.
    rewrite do_log_starts, do_log_returns, Hover. repeat split.
    + unfold in_flight. rewrite do_log_active, Hover. exact Hk.
    + intros j. rewrite do_log_logged_count, do_log_starts, Hover. cbn. lia.
    + rewrite do_log_active, Hover. reflexivity.
    + unfold after. rewrite do_log_eq, Hover. apply world_checked.
  - cbv zeta. rewrite run_app. fold s. split; [exact Hk'|]. split; [|split].
    3:{ intros trajectories mode_arg p g Hpos. rewrite finalize_one_eq, Hpos.
        unfold in_flight in Hk'.
        destruct (active_trajectories _ !! k); [discriminate | reflexivity]. }
    + intros name doc Hin. rewrite Hio2, Hio1 in Hin. cbn in Hin.
      apply elem_of_app in Hin as [Hin|Hin].
      * rewrite Forall_forall in Hev1. eapply Hev1; [exact Hin | reflexivity].
      * rewrite Forall_forall in Hev2. eapply Hev2; [exact Hin | reflexivity].
    + rewrite Hdir2, Hdir1. cbn.
      rewrite !replay_lookup_other; [reflexivity| |].
      * eapply Forall_impl; [exact Hev1|]. intros ev H name' doc ->.
        eapply H. reflexivity.
      * eapply Forall_impl; [exact Hev2|]. intros ev H name' doc ->.
        eapply H. reflexivity.
Qed.

Lemma quota_exhausted_key_absent_witness :
  (forall c', LogTurn c' ∈ demo_pre -> call_key c' <> call_key (demo_call 0 1 0 0))
  /\ 1 <= logged_count
            (self (run demo_clock demo_pre (boot (init "out" true true true (Some 1)) ∅)))
            (c_step (demo_call 0 1 0 0))
  /\ in_flight (run demo_clock (demo_pre ++ LogTurn (demo_call 0 1 0 0) :: demo_rest)
                  (boot (init "out" true true true (Some 1)) ∅))
               (call_key (demo_call 0 1 0 0)) = false
  /\ trajectories_dir
       (world (run demo_clock (demo_pre ++ LogTurn (demo_call 0 1 0 0) :: demo_rest)
                 (boot (init "out" true true true (Some 1)) ∅)))
     !! file_of (call_key (demo_call 0 1 0 0)) = None.
Proof.
  assert (H1 : forall c', LogTurn c' ∈ demo_pre ->
                          call_key c' <> call_key (demo_call 0 1 0 0)).
  { intros c' Hin. apply list_elem_of_singleton in Hin. injection Hin as ->.
    discriminate. }
  assert (H2 : 1 <= logged_count
            (self (run demo_clock demo_pre (boot (init "out" true true true (Some 1)) ∅)))
            (c_step (demo_call 0 1 0 0))).
  { vm_compute. discriminate. }
  destruct (quota_exhausted_key_absent demo_clock "out" true true true 1 ∅
              demo_pre (demo_call 0 1 0 0) demo_rest H1 H2) as (_ & Hk & _ & Hdir & _).
  split; [exact H1 | split; [exact H2 | split; [exact Hk | exact Hdir]]].
Defined.

(** ** Turn order *)

Lemma do_log_turns c s k :
  turns_of (after (do_log c) s) k =
  turns_of s k ++
  (if bool_decide (call_key c = k) && appends c s
   then match turn_data_of (self s) c with inr t => [t] | inl _ => [] end
   else []).
Proof.
  unfold turns_of, appends. rewrite do_log_active, do_log_returns.
  destruct (over_limit s (c_step c)); cbn [negb andb].
  { rewrite andb_false_r, app_nil_r. reflexivity. }
  unfold in_flight.
  destruct (turn_data_of (self s) c) as [e|t]; case_bool_decide as Hk; cbn [andb].
  - rewrite app_nil_r. subst k.
    destruct (active_trajectories (self s) !! call_key c) as [tr|] eqn:E;
      rewrite ?E, ?lookup_insert_eq; reflexivity.
  - rewrite app_nil_r.
    destruct (active_trajectories (self s) !! call_key c);
      rewrite ?lookup_insert_ne by done; reflexivity.
  - subst k. rewrite lookup_alter_eq.
    destruct (active_trajectories (self s) !! call_key c) as [tr|] eqn:E;
      rewrite ?E, ?lookup_insert_eq; reflexivity.
  - rewrite app_nil_r, lookup_alter_ne by done.
    destruct (active_trajectories (self s) !! call_key c);
      rewrite ?lookup_insert_ne by done; reflexivity.
Qed.

Lemma appends_turn_data c s :
  appends c s = true -> exists t, turn_data_of (self s) c = inr t.
Proof.
  unfold appends. rewrite do_log_returns.
  destruct (over_limit s (c_step c)); [discriminate|].
  destruct (turn_data_of (self s) c) as [e|t]; [discriminate | eauto].
Qed.

Section TurnOrder.

Variable now : nat -> string.

Lemma turns_of_after_finalize trajectories n mode_arg s k :
  turns_of (after (finalize_trajectories now trajectories n mode_arg) s) k
  = if in_flight (after (finalize_trajectories now trajectories n mode_arg) s) k
    then turns_of s k else [].
Proof.
  unfold turns_of, in_flight.
  destruct (active_trajectories (self (after _ s)) !! k) as [tr|] eqn:E; [|reflexivity].
  apply (finalize_frame now trajectories n mode_arg s) in E. rewrite E. reflexivity.
Qed.

(** The turns in flight for a key are the entries of its recorded calls. *)
Lemma recorded_turns ops : forall s k acc,
  Forall2 (fun t c => turn_data_of (self s) c = inr t) (turns_of s k) acc ->
  Forall2 (fun t c => turn_data_of (self s) c = inr t)
          (turns_of (run now ops s) k) (recorded now ops k s acc).
Proof.
  induction ops as [|op ops IH]; intros s k acc Hacc; [exact Hacc|].
  rewrite run_cons. cbn [recorded].
  eapply Forall2_impl.
  - apply IH. destruct op as [c|trajectories n mode_arg]; cbn [exec].
    + rewrite do_log_turns.
      assert (Hacc' : Forall2 (fun t c' => turn_data_of (self (after (do_log c) s)) c' = inr t)
                              (turns_of s k) acc).
      { eapply Forall2_impl; [exact Hacc|]. intros t c' <-.
        apply turn_data_of_config, do_log_config. }
      destruct (bool_decide (call_key c = k) && appends c s) eqn:E.
      * apply andb_true_iff in E as [_ E].
        destruct (appends_turn_data c s E) as [t Ht]. rewrite Ht.
        apply Forall2_app; [exact Hacc'|]. repeat constructor.
        rewrite <- Ht. apply turn_data_of_config, do_log_config.
      * rewrite app_nil_r. exact Hacc'.
    + rewrite turns_of_after_finalize.
      destruct (in_flight (after _ s) k); [|constructor].
      eapply Forall2_impl; [exact Hacc|]. intros t c' <-.
      apply turn_data_of_config, (finalize_frame now trajectories n mode_arg s).
  - intros t c' <-. symmetry. apply turn_data_of_config, exec_config.
Qed.

Lemma recorded_sublist ops : forall k s acc,
  sublist (recorded now ops k s acc) (acc ++ calls_for k ops).
Proof.
  induction ops as [|op ops IH]; intros k s acc; cbn [recorded calls_for].
  - rewrite app_nil_r. reflexivity.
  - destruct op as [c|trajectories n mode_arg].
    + case_bool_decide as Hk; cbn [andb].
      * destruct (appends c s).
        -- change (c :: calls_for k ops) with ([c] ++ calls_for k ops).
           rewrite app_assoc. apply IH.
        -- etrans; [apply IH|]. apply sublist_app; [reflexivity|].
           apply sublist_cons. reflexivity.
      * apply IH.
    + destruct (in_flight _ k); [apply IH|].
      etrans; [apply IH|]. cbn. apply sublist_inserts_l. reflexivity.
Qed.

End TurnOrder.

(** C5: for every trajectory file that a [finalize_trajectories] call
    writes, on a logger of any history since its construction, the turns in
    the file are the entries of the [log_turn] calls for its key that
    appended a turn to the entry in flight, in the order of those calls,
    each with the [turn_idx] its call was given. These calls are taken in
    call order from the calls made for the key: nothing is sorted. *)
Theorem turns_in_call_order now dir images prompts responses limit dir0
    ops trajectories n mode_arg name doc :
  let s0 := boot (init dir images prompts responses limit) dir0 in
  let s := run now ops s0 in
  WroteTrajectory name doc
    ∈ emitted (finalize_trajectories now trajectories n mode_arg) s ->
  exists k,
    name = file_of k /\ key_of doc = k
    /\ Forall2 (fun t c => turn_data_of (self s0) c = inr t)
               (turns doc) (recorded now ops k s0 [])
    /\ turn_idx <$> turns doc = c_turn_idx <$> recorded now ops k s0 []
    /\ sublist (recorded now ops k s0 []) (calls_for k ops).
Proof.
  intros s0 s Hin.
  assert (Hwf : well_formed s) by apply run_well_formed, well_formed_boot.
  destruct (finalize_frame now trajectories n mode_arg s)
    as (_ & _ & _ & evs & tail & Hw & Hev & Htail).
  erewrite emitted_app in Hin; [|rewrite Hw; cbn; rewrite <- app_assoc; reflexivity].
  assert (Hfin : finalizes s name doc).
  { apply elem_of_app in Hin as [Hin|Hin].
    - rewrite Forall_forall in Hev.
      destruct (Hev _ Hin) as (name' & doc' & [= -> ->] & H). exact H.
    - destruct Htail as [->|[r ->]]; [inversion Hin|].
      apply list_elem_of_singleton in Hin. discriminate. }
  destruct Hfin as (k & tr & Hact & -> & _ & Hturns & Hkey & _).
  destruct (Hwf k tr Hact) as (Hk & Hid & _).
  assert (Hall : Forall2 (fun t c => turn_data_of (self s0) c = inr t)
                         (turns_of s k) (recorded now ops k s0 [])).
  { apply recorded_turns. unfold turns_of. cbn. rewrite lookup_empty. constructor. }
  unfold turns_of in Hall. rewrite Hact in Hall.
  exists k. rewrite Hid, Hkey, Hk, Hturns. repeat split.
  - exact Hall.
  - clear -Hall. induction Hall as [|t c ts cs Ht _ IH]; [reflexivity|].
    cbn. rewrite IH. f_equal. eapply turn_data_of_turn_idx, Ht.
  - apply (recorded_sublist now ops k s0 []).
Qed.

Lemma turns_in_call_order_witness :
  WroteTrajectory "step000000_p000_g00.json" demo_doc
    ∈ emitted (finalize_trajectories demo_clock
                 [[demo_outcome]; [demo_outcome]] 0 "train")
              (run demo_clock (LogTurn <$> demo_calls)
                   (boot (init "out" true true true None) ∅))
  /\ exists k,
       "step000000_p000_g00.json" = file_of k
       /\ turn_idx <$> turns demo_doc
          = c_turn_idx <$> recorded demo_clock (LogTurn <$> demo_calls) k
                             (boot (init "out" true true true None) ∅) [].
Proof.
  assert (H : WroteTrajectory "step000000_p000_g00.json" demo_doc
    ∈ emitted (finalize_trajectories demo_clock
                 [[demo_outcome]; [demo_outcome]] 0 "train")
              (run demo_clock (LogTurn <$> demo_calls)
                   (boot (init "out" true true true None) ∅))).
  { vm_compute. left. }
  split; [exact H|].
  destruct (turns_in_call_order demo_clock "out" true true true None ∅
              (LogTurn <$> demo_calls)
              [[demo_outcome]; [demo_outcome]] 0 "train" _ _ H)
    as (k & Hname & _ & _ & Hidx & _).
  exists k. split; [exact Hname | exact Hidx].
Defined.

(** ** Finalization *)

Lemma sweep_events_origin now trajectories n mode_arg s evs xs ev :
  Forall2 (fun ev x => exists tr,
             active_trajectories (self s) !! position_key n x = Some tr
             /\ writes_of now trajectories mode_arg tr x ev) evs xs ->
  ev ∈ evs ->
  exists x tr o i,
    x ∈ xs /\ active_trajectories (self s) !! position_key n x = Some tr
    /\ outcome_at trajectories (fst x) (snd x) = Some o
    /\ ev = WroteTrajectory (trajectory_id tr +:+ ".json")
                            (finalized_record mode_arg (now i) o tr).
Proof.
  intros Hev Hin. apply list_elem_of_lookup in Hin as [j Hj].
  destruct (Forall2_lookup_l _ _ _ _ _ Hev Hj) as (x & Hx & tr & Hact & o & i & Ho & ->).
  exists x, tr, o, i. repeat split; try done. eapply list_elem_of_lookup_2, Hx.
Qed.




Lemma filter_none {A} (P : A -> Prop) `{forall x, Decision (P x)} (l : list A) :
  (forall x, x ∈ l -> ~ P x) -> filter P l = [].
Proof.
  induction l as [|x l IH]; intros Hall; [reflexivity|].
  rewrite filter_cons_False by (apply Hall; left).
  apply IH. intros y Hy. apply Hall. right. exact Hy.
Qed.





(** C9: the loops of [finalize_trajectories] use the length of row 0 as
    the generation count of every row. If a row is shorter than row 0 and a
    trajectory is in flight at a position that the row lacks, the call
    raises [IndexError], at the first such position in loop order: every
    in-flight trajectory at an earlier position has then been written and
    removed, the one at the failing position is still in flight, and the
    clean-up with its warning has not run. *)
Theorem ragged_outcomes_raise now trajectories n mode_arg s p g row0 row :
  trajectories !! 0%nat = Some row0 ->
  trajectories !! p = Some row ->
  (length row <= g < length row0)%nat ->
  in_flight s (n, Z.of_nat p, Z.of_nat g) = true ->
  num_generations trajectories = length row0
  /\ exists pre x post,
       positions (length trajectories) (length row0) = pre ++ x :: post
       /\ snd (finalize_trajectories now trajectories n mode_arg s)
          = Raise (IndexError "list index out of range")
       /\ in_flight s (position_key n x) = true
       /\ outcome_at trajectories (fst x) (snd x) = None
       /\ (forall y, y ∈ pre -> in_flight s (position_key n y) = true ->
                     is_Some (outcome_at trajectories (fst y) (snd y)))
       /\ (forall y tr, y ∈ pre ->
             active_trajectories (self s) !! position_key n y = Some tr ->
             in_flight (after (finalize_trajectories now trajectories n mode_arg) s)
                       (position_key n y) = false
             /\ exists o i,
                  outcome_at trajectories (fst y) (snd y) = Some o
                  /\ WroteTrajectory (trajectory_id tr +:+ ".json")
                                     (finalized_record mode_arg (now i) o tr)
                     ∈ emitted (finalize_trajectories now trajectories n mode_arg) s)
       /\ in_flight (after (finalize_trajectories now trajectories n mode_arg) s)
                    (position_key n x) = true
       /\ printed (emitted (finalize_trajectories now trajectories n mode_arg) s) = [].
Proof.
  intros Hrow0 Hrow Hg Hfl.
  assert (Hng : num_generations trajectories = length row0).
  { destruct trajectories as [|r rs]; [discriminate|]. cbn in Hrow0.
    injection Hrow0 as ->. reflexivity. }
  split; [exact Hng|]. rewrite <- Hng.
  pose proof (finalize_spec now trajectories n mode_arg s) as H. unfold after.
  destruct (finalize_trajectories now trajectories n mode_arg s) as [s' [[]|e]] eqn:E.
  - exfalso. destruct H as (_ & _ & _ & Hout).
    destruct (Hout (p, g)) as [o Ho].
    + apply elem_of_positions. split; [eapply lookup_lt_Some, Hrow | lia].
    + exact Hfl.
    + unfold outcome_at in Ho. cbn in Ho. rewrite Hrow in Ho.
      apply lookup_lt_Some in Ho. lia.
  - destruct H as (pre & x & post & Hpos & Hsw & Hx & Hnone & -> & Hpre).
    exists pre, x, post. cbn [fst snd].
    destruct (swept_frame _ _ _ _ _ _ _ Hsw) as (_ & _ & Ha & evs & Hw & Hev).
    assert (Hem : emitted (finalize_trajectories now trajectories n mode_arg) s = evs).
    { apply emitted_app. unfold after. rewrite E. cbn [fst]. rewrite Hw. reflexivity. }
    assert (Hnd : NoDup (pre ++ x :: post)).
    { rewrite <- Hpos. apply NoDup_positions. }
    repeat split; try done.
    + unfold in_flight. rewrite Ha, lookup_unvisited, decide_True; [reflexivity|].
      apply list_elem_of_fmap. eauto.
    + rewrite Hem.
      eapply (sweep_events_lookup now trajectories n mode_arg s evs _ y tr Hev); [|done].
      apply list_elem_of_filter. split; [|done]. unfold in_flight.
      match goal with Hy : _ !! position_key n y = Some tr |- _ => rewrite Hy end.
      reflexivity.
    + unfold in_flight in *. rewrite Ha, lookup_unvisited, decide_False; [exact Hx|].
      intros (y & Hy & Hin)%list_elem_of_fmap. apply position_key_inj in Hy. subst y.
      apply NoDup_app in Hnd as (_ & Hdis & _). apply (Hdis x Hin). left.
    + rewrite Hem.
      apply (sweep_events_written now trajectories n mode_arg s evs _ Hev).
Qed.

Lemma ragged_outcomes_raise_witness :
  demo_ragged !! 0%nat = Some [demo_outcome; demo_outcome]
  /\ demo_ragged !! 1%nat = Some [demo_outcome]
  /\ (length [demo_outcome] <= 1 < length [demo_outcome; demo_outcome])%nat
  /\ in_flight demo_ragged_state (0, Z.of_nat 1, Z.of_nat 1) = true
  /\ exists pre x post,
       positions (length demo_ragged) (length [demo_outcome; demo_outcome])
       = pre ++ x :: post
       /\ snd (finalize_trajectories demo_clock demo_ragged 0 "train" demo_ragged_state)
          = Raise (IndexError "list index out of range").
Proof.
  assert (H3 : (length [demo_outcome] <= 1 < length [demo_outcome; demo_outcome])%nat)
    by (cbn; lia).
  assert (H4 : in_flight demo_ragged_state (0, Z.of_nat 1, Z.of_nat 1) = true)
    by (vm_compute; reflexivity).
  split; [reflexivity|]. split; [reflexivity|]. split; [exact H3|]. split; [exact H4|].
  destruct (ragged_outcomes_raise demo_clock demo_ragged 0 "train" demo_ragged_state
              1%nat 1%nat [demo_outcome; demo_outcome] [demo_outcome]
              eq_refl eq_refl H3 H4) as (_ & pre & x & post & Hpos & Hraise & _).
  exists pre, x, post. split; [exact Hpos | exact Hraise].
Defined.

(** ** Images that cannot be saved *)





(** ** A trajectory cut short by the limit *)

(** Once the limit of a step is reached, a call appends nothing, also for
    a key that is in flight. *)
Lemma limit_reached_drops_turn c s k :
  over_limit s (c_step c) = true ->
  do_log c s = (checked (c_step c) s, Ok tt)
  /\ turns_of (after (do_log c) s) k = turns_of s k.
Proof.
  intros Hover. split; [rewrite do_log_eq, Hover; reflexivity|].
  rewrite do_log_turns. unfold appends. rewrite Hover. cbn.
  rewrite andb_false_r, app_nil_r. reflexivity.
Qed.

(** C1 does not hold of the code: with a limit of one trajectory per step,
    the first turn of the key (0, 0, 0) starts its trajectory and exhausts
    the limit, and the second turn for the same key, which is in flight, is
    dropped by the limit check. *)
Theorem admitted_trajectory_loses_turn :
  in_flight (run demo_clock [LogTurn (demo_call 0 0 0 0)]
               (boot (init "out" true true true (Some 1)) ∅)) (0, 0, 0) = true
  /\ returns (do_log (demo_call 0 0 0 1))
             (run demo_clock [LogTurn (demo_call 0 0 0 0)]
                  (boot (init "out" true true true (Some 1)) ∅)) = true
  /\ turns_of (run demo_clock [LogTurn (demo_call 0 0 0 0); LogTurn (demo_call 0 0 0 1)]
                 (boot (init "out" true true true (Some 1)) ∅)) (0, 0, 0)
     = [mkTurn 0 None (Some "ok") None None].
Proof. repeat split; vm_compute; reflexivity. Qed.

(** ** The report *)

(** C8: when no file of the trajectories directory is selected by the
    step (or, without a step, by the pattern for all files),
    [generate_html_report] prints that no trajectories were found, returns
    [None] and writes no report: the line printed is its only effect. *)
Theorem report_without_files format_2f step_arg s :
  (forall name, is_Some (trajectories_dir (world s) !! name) ->
                selected step_arg name = false) ->
  generate_html_report format_2f step_arg s
  = (with_world (emit (Printed ("No trajectories found for step "
                                +:+ str_step step_arg))) s, Ok None)
  /\ reports (emitted (generate_html_report format_2f step_arg) s) = []
  /\ printed (emitted (generate_html_report format_2f step_arg) s)
     = ["No trajectories found for step " +:+ str_step step_arg].
Proof.
  intros Hnone.
  assert (Hfiles : trajectory_files step_arg (world s) = []).
  { unfold trajectory_files. rewrite filter_none; [reflexivity|].
    intros name Hin. apply elem_of_elements, elem_of_dom in Hin.
    rewrite (Hnone name Hin). discriminate. }
  assert (Heq : generate_html_report format_2f step_arg s
    = (with_world (emit (Printed ("No trajectories found for step "
                                  +:+ str_step step_arg))) s, Ok None)).
  { unfold generate_html_report, bind, gets, print, modify, ret.
    rewrite Hfiles. reflexivity. }
  split; [exact Heq|].
  unfold emitted, after. rewrite Heq. cbn. rewrite drop_app_length. split; reflexivity.
Qed.

Lemma report_without_files_witness :
  (forall name,
     is_Some (trajectories_dir (world (boot (init "out" true true true None) ∅)) !! name) ->
     selected (Some 7) name = false)
  /\ snd (generate_html_report (fun _ => "0.00") (Some 7)
            (boot (init "out" true true true None) ∅)) = Ok None
  /\ reports (emitted (generate_html_report (fun _ => "0.00") (Some 7))
                (boot (init "out" true true true None) ∅)) = [].
Proof.
  assert (H : forall name,
     is_Some (trajectories_dir (world (boot (init "out" true true true None) ∅)) !! name) ->
     selected (Some 7) name = false).
  { intros name [doc Hdoc]. cbn in Hdoc. rewrite lookup_empty in Hdoc. discriminate. }
  split; [exact H|].
  destruct (report_without_files (fun _ => "0.00") (Some 7)
              (boot (init "out" true true true None) ∅) H) as (Heq & Hrep & _).
  split; [rewrite Heq; reflexivity | exact Hrep].
Defined.


(** * Further properties of the code *)

(** ** Identifiers and file names *)

Lemma string_app_inj_r (s : string) : Inj (=) (=) (String.append s).
Proof. intros a b H. induction s as [|ch s IH]; [exact H|]. injection H as H. auto. Qed.

(** X1: the trajectory identifier determines the key, and the path of a
    turn's image determines the key and the turn index: two trajectories
    never share a file, and two turns share an image file only if they have
    the same key and the same [turn_idx]. *)
Theorem identifiers_determine_keys L c c' :
  (traj_id_of (c_step c) (c_prompt_idx c) (c_gen_idx c)
   = traj_id_of (c_step c') (c_prompt_idx c') (c_gen_idx c')
   <-> call_key c = call_key c')
  /\ (save_path L c = save_path L c'
      <-> call_key c = call_key c' /\ c_turn_idx c = c_turn_idx c').
Proof.
  split; split.
  - intros H. apply file_of_inj. unfold file_of, call_key. cbn [fst snd].
    rewrite H. reflexivity.
  - unfold call_key. intros [= -> -> ->]. reflexivity.
  - unfold save_path, traj_id_of. intros H.
    apply string_app_inj_r in H.
    change ("/images/" +:+ ?x) with (String "/" ("images/" +:+ x)) in H.
    injection H as H. rewrite !string_app_assoc in H.
    change ("_p" +:+ ?x) with (String "_" (String "p" x)) in H.
    apply (split_at_separator _ "_" _ _ _ _ eq_refl (format_0d_chars _ _)
             (format_0d_chars _ _)) in H as [Hn H].
    injection H as H.
    change ("_g" +:+ ?x) with (String "_" (String "g" x)) in H.
    apply (split_at_separator _ "_" _ _ _ _ eq_refl (format_0d_chars _ _)
             (format_0d_chars _ _)) in H as [Hp H].
    injection H as H.
    change ("_turn" +:+ ?x) with (String "_" ("turn" +:+ x)) in H.
    apply (split_at_separator _ "_" _ _ _ _ eq_refl (format_0d_chars _ _)
             (format_0d_chars _ _)) in H as [Hg H].
    change ("turn" +:+ ?x) with (String "t" (String "u" (String "r" (String "n" x)))) in H.
    injection H as H.
    change (".png") with (String "." "png") in H.
    apply (split_at_separator _ "." _ _ _ _ eq_refl (format_0d_chars _ _)
             (format_0d_chars _ _)) in H as [Ht _].
    apply format_0d_inj in Hn, Hp, Hg, Ht. unfold call_key. split; congruence.
  - unfold call_key, save_path. intros [[= -> -> ->] ->]. reflexivity.
Qed.

(** ** What [log_turn] does and does not do *)

Lemma emits_world_nil w : emits [] w = w.
Proof. destruct w. unfold emits. cbn. rewrite app_nil_r. reflexivity. Qed.

Lemma do_log_world_eq c s :
  world (after (do_log c) s) =
  if over_limit s (c_step c) then world s
  else match turn_data_of (self s) c with
       | inl _ => world s
       | inr _ => emits (image_saves (self s) c) (world s)
       end.
Proof.
  unfold after. rewrite do_log_eq.
  destruct (config_admitted (call_key c) (checked (c_step c) s)) as (_ & _ & _ & _ & _ & Hw).
  rewrite world_checked in Hw.
  destruct (over_limit s (c_step c)); [apply world_checked|].
  cbv zeta. destruct (turn_data_of (self s) c); cbn; rewrite Hw; reflexivity.
Qed.

Lemma image_saves_only_images L c :
  written_names (image_saves L c) = [] /\ printed (image_saves L c) = []
  /\ reports (image_saves L c) = [] /\ replay (image_saves L c) = id.
Proof. unfold image_saves. repeat case_match; repeat split. Qed.

(** X2: a [log_turn] call touches nothing but its own key: the in-flight
    entry of every other key and the counter of every other step are as
    before, the configuration is unchanged, the trajectories directory is
    unchanged, the clock is not read, and the call writes no trajectory
    file, no report and prints nothing, whether it returns or raises. *)
Theorem log_turn_touches_only_its_key c s :
  same_config s (after (do_log c) s)
  /\ (forall k, k <> call_key c ->
        active_trajectories (self (after (do_log c) s)) !! k
        = active_trajectories (self s) !! k)
  /\ (forall j, j <> c_step c ->
        logged_count (self (after (do_log c) s)) j = logged_count (self s) j)
  /\ trajectories_dir (world (after (do_log c) s)) = trajectories_dir (world s)
  /\ ticks (world (after (do_log c) s)) = ticks (world s)
  /\ written_names (emitted (do_log c) s) = []
  /\ printed (emitted (do_log c) s) = []
  /\ reports (emitted (do_log c) s) = [].
Proof.
  split; [apply do_log_config|]. split; [|split].
  - intros k Hk. rewrite do_log_active.
    destruct (over_limit s (c_step c)); [reflexivity|]. cbv zeta.
    destruct (turn_data_of (self s) c); rewrite ?lookup_alter_ne by done;
      destruct (in_flight s (call_key c)); rewrite ?lookup_insert_ne by done;
      reflexivity.
  - intros j Hj. rewrite do_log_logged_count.
    rewrite bool_decide_eq_false_2 by exact Hj. rewrite andb_false_r. lia.
  - destruct (image_saves_only_images (self s) c) as (Hw & Hp & Hr & _).
    assert (Hcases : world (after (do_log c) s) = world s
                     \/ world (after (do_log c) s) = emits (image_saves (self s) c) (world s)).
    { rewrite do_log_world_eq. destruct (over_limit s (c_step c)); [auto|].
      destruct (turn_data_of (self s) c); auto. }
    destruct Hcases as [Heq|Heq].
    + assert (Hem : emitted (do_log c) s = []).
      { apply emitted_app. rewrite Heq, app_nil_r. reflexivity. }
      rewrite Heq, Hem. repeat split.
    + assert (Hem : emitted (do_log c) s = image_saves (self s) c).
      { apply emitted_app. rewrite Heq. reflexivity. }
      rewrite Heq, Hem. repeat split; assumption.
Qed.

Lemma under_limit_without_limit s j :
  max_trajectories_per_step (self s) = None -> over_limit s j = false.
Proof. unfold over_limit. intros ->. reflexivity. Qed.

Lemma turn_data_of_settles L c :
  decodes L c -> save_settles L c ->
  exists t,
    turn_data_of L c = inr t
    /\ turn_idx t = c_turn_idx c
    /\ prompt t = prompt_of L c
    /\ response t = (if save_responses L then Some (c_completion c) else None).
Proof.
  unfold decodes, save_settles, turn_data_of, prompt_of, save_path.
  intros Hdec Hset.
  destruct (save_prompts L), (c_decoder c) as [decode|];
    [destruct Hdec as [text ->]| | |];
    (destruct (save_images L), (c_image c) as [[ty|save]|];
     [ | destruct (save _) as [e|] eqn:E; [rewrite (Hset e eq_refl)|] | | | | ]);
    eexists; repeat split.
Qed.

(** X3: a call that finds its step under the limit (always so when no
    limit is configured), whose decoder returns and whose image [save]
    raises at most an [Exception], returns and appends exactly one turn to
    the entry of its key, after the turns already there. The turn carries
    the [turn_idx] of the call, the decoded prompt exactly when prompts are
    saved and a decoder is given, and the completion exactly when responses
    are saved. *)
Theorem log_turn_appends_one_turn c s :
  over_limit s (c_step c) = false ->
  decodes (self s) c ->
  save_settles (self s) c ->
  (max_trajectories_per_step (self s) = None -> forall j, over_limit s j = false)
  /\ exists t,
       do_log c s = (after (do_log c) s, Ok tt)
       /\ turns_of (after (do_log c) s) (call_key c) = turns_of s (call_key c) ++ [t]
       /\ in_flight (after (do_log c) s) (call_key c) = true
       /\ turn_idx t = c_turn_idx c
       /\ prompt t = prompt_of (self s) c
       /\ response t = (if save_responses (self s) then Some (c_completion c) else None).
Proof.
  intros Hover Hdec Hset.
  split; [intros Hnone j; apply under_limit_without_limit, Hnone|].
  destruct (turn_data_of_settles (self s) c Hdec Hset) as (t & Ht & Hidx & Hp & Hr).
  exists t.
  assert (Hturns : turns_of (after (do_log c) s) (call_key c)
                   = turns_of s (call_key c) ++ [t]).
  { rewrite do_log_turns. unfold appends. rewrite do_log_returns, Hover, Ht.
    rewrite bool_decide_eq_true_2 by reflexivity. reflexivity. }
  split; [unfold after; rewrite do_log_eq, Hover, Ht; reflexivity|].
  split; [exact Hturns|]. split; [|auto].
  unfold in_flight. unfold turns_of in Hturns at 1.
  destruct (active_trajectories (self (after (do_log c) s)) !! call_key c); [reflexivity|].
  destruct (turns_of s (call_key c)); discriminate.
Qed.

Lemma log_turn_appends_one_turn_witness :
  over_limit (boot (init "out" true true true None) ∅) (c_step (demo_call 3 1 2 5)) = false
  /\ decodes (self (boot (init "out" true true true None) ∅)) (demo_call 3 1 2 5)
  /\ save_settles (self (boot (init "out" true true true None) ∅)) (demo_call 3 1 2 5)
  /\ exists t,
       turns_of (after (do_log (demo_call 3 1 2 5))
                   (boot (init "out" true true true None) ∅))
                (call_key (demo_call 3 1 2 5)) = [t]
       /\ turn_idx t = 5.
Proof.
  split; [reflexivity|]. split; [exact I|]. split; [exact I|].
  destruct (log_turn_appends_one_turn (demo_call 3 1 2 5)
              (boot (init "out" true true true None) ∅) eq_refl I I)
    as (_ & t & _ & Hturns & _ & Hidx & _).
  exists t. split; [exact Hturns | exact Hidx].
Defined.



(** X5: a call that uses no collaborator cannot raise: when prompts are
    not saved or no decoder is given, and images are not saved or no image
    is given, [log_turn] returns and leaves the world as it is; if it is not
    stopped by the limit check, the turn it appends has no ["prompt"], no
    ["image_path"] and no ["image_error"]. *)
Theorem log_turn_without_collaborators c s :
  save_prompts (self s) = false \/ c_decoder c = None ->
  save_images (self s) = false \/ c_image c = None ->
  returns (do_log c) s = true
  /\ world (after (do_log c) s) = world s
  /\ (over_limit s (c_step c) = false ->
      turns_of (after (do_log c) s) (call_key c)
      = turns_of s (call_key c)
        ++ [mkTurn (c_turn_idx c) None
                   (if save_responses (self s) then Some (c_completion c) else None)
                   None None]).
Proof.
  intros Hp Hi.
  assert (Ht : turn_data_of (self s) c
               = inr (mkTurn (c_turn_idx c) None
                        (if save_responses (self s) then Some (c_completion c) else None)
                        None None)).
  { unfold turn_data_of.
    destruct Hp as [-> | ->], Hi as [-> | ->];
      repeat (case_match; try discriminate); simplify_eq; reflexivity. }
  assert (Hs : image_saves (self s) c = []).
  { unfold image_saves. destruct Hi as [-> | ->]; repeat case_match; reflexivity. }
  rewrite do_log_returns, do_log_world_eq, Ht, Hs, emits_world_nil.
  split; [destruct (over_limit s (c_step c)); reflexivity|].
  split; [destruct (over_limit s (c_step c)); reflexivity|].
  intros Hover. rewrite do_log_turns. unfold appends.
  rewrite do_log_returns, Hover, Ht. rewrite bool_decide_eq_true_2 by reflexivity.
  reflexivity.
Qed.

Lemma log_turn_without_collaborators_witness :
  (save_prompts (self (boot (init "out" true true true None) ∅)) = false
   \/ c_decoder (demo_call 0 0 0 0) = None)
  /\ (save_images (self (boot (init "out" true true true None) ∅)) = false
      \/ c_image (demo_call 0 0 0 0) = None)
  /\ returns (do_log (demo_call 0 0 0 0)) (boot (init "out" true true true None) ∅) = true.
Proof.
  split; [right; reflexivity|]. split; [right; reflexivity|].
  exact (proj1 (log_turn_without_collaborators (demo_call 0 0 0 0)
                  (boot (init "out" true true true None) ∅)
                  (or_intror eq_refl) (or_intror eq_refl))).
Defined.

Lemma do_log_raises c s e :
  over_limit s (c_step c) = false ->
  turn_data_of (self s) c = inl e ->
  snd (do_log c s) = Raise e
  /\ world (after (do_log c) s) = world s
  /\ in_flight (after (do_log c) s) (call_key c) = true
  /\ turns_of (after (do_log c) s) (call_key c) = turns_of s (call_key c)
  /\ logged_count (self (after (do_log c) s)) (c_step c)
     = logged_count (self s) (c_step c)
       + (if in_flight s (call_key c) then 0 else 1).
Proof.
  intros Hover Ht. split; [rewrite do_log_eq, Hover, Ht; reflexivity|].
  split; [rewrite do_log_world_eq, Hover, Ht; reflexivity|]. split; [|split].
  - unfold in_flight at 1. rewrite do_log_active, Hover, Ht. cbv zeta.
    unfold in_flight.
    destruct (active_trajectories (self s) !! call_key c) eqn:E;
      rewrite ?E, ?lookup_insert_eq; reflexivity.
  - rewrite do_log_turns. unfold appends. rewrite do_log_returns, Hover, Ht.
    rewrite andb_false_r. apply app_nil_r.
  - rewrite do_log_logged_count, do_log_starts, Hover.
    rewrite bool_decide_eq_true_2 by reflexivity.
    destruct (in_flight s (call_key c)); reflexivity.
Qed.

(** X6: the exception of a decoder is not caught, and it escapes after the
    trajectory has been started: when a call under the limit saves prompts
    and its decoder raises, [log_turn] raises that exception, appends no
    turn and saves no image, but the entry of the key is in flight
    afterwards; if the key was new, the entry has no turns and the step's
    counter has gone up by one. *)
Theorem decoder_failure_leaves_started_entry c s decode e :
  over_limit s (c_step c) = false ->
  save_prompts (self s) = true ->
  c_decoder c = Some decode ->
  decode (c_prompt_ids c) = inl e ->
  snd (do_log c s) = Raise e
  /\ world (after (do_log c) s) = world s
  /\ in_flight (after (do_log c) s) (call_key c) = true
  /\ turns_of (after (do_log c) s) (call_key c) = turns_of s (call_key c)
  /\ (in_flight s (call_key c) = false ->
      turns_of (after (do_log c) s) (call_key c) = []
      /\ logged_count (self (after (do_log c) s)) (c_step c)
         = logged_count (self s) (c_step c) + 1).
Proof.
  intros Hover Hp Hd He.
  assert (Ht : turn_data_of (self s) c = inl e).
  { unfold turn_data_of. rewrite Hp, Hd, He. reflexivity. }
  destruct (do_log_raises c s e Hover Ht) as (H1 & H2 & H3 & H4 & H5).
  split; [exact H1|]. split; [exact H2|]. split; [exact H3|]. split; [exact H4|].
  intros Hnew. split.
  - rewrite H4. unfold turns_of. unfold in_flight in Hnew.
    destruct (active_trajectories (self s) !! call_key c); [discriminate | reflexivity].
  - rewrite H5, Hnew. reflexivity.
Qed.

Lemma decoder_failure_leaves_started_entry_witness :
  over_limit (boot (init "out" true true true (Some 1)) ∅)
             (c_step demo_bad_decoder_call) = false
  /\ snd (do_log demo_bad_decoder_call (boot (init "out" true true true (Some 1)) ∅))
     = Raise (OtherException "cannot decode")
  /\ in_flight (after (do_log demo_bad_decoder_call)
                  (boot (init "out" true true true (Some 1)) ∅))
               (call_key demo_bad_decoder_call) = true.
Proof.
  split; [reflexivity|].
  destruct (decoder_failure_leaves_started_entry demo_bad_decoder_call
              (boot (init "out" true true true (Some 1)) ∅)
              (fun _ => inl (OtherException "cannot decode"))
              (OtherException "cannot decode") eq_refl eq_refl eq_refl eq_refl)
    as (H1 & _ & H3 & _).
  split; [exact H1 | exact H3].
Defined.

(** X7: [except Exception] lets through what is not an [Exception]: when
    the [save] of the image raises such an error (a keyboard interrupt, a
    system exit), [log_turn] raises it; no turn is appended and no
    ["image_error"] is recorded, and the entry of the key stays in flight. *)
Theorem interrupted_save_escapes c s save e :
  over_limit s (c_step c) = false ->
  decodes (self s) c ->
  save_images (self s) = true ->
  c_image c = Some (Savable save) ->
  save (save_path (self s) c) = Some e ->
  is_Exception e = false ->
  snd (do_log c s) = Raise e
  /\ emitted (do_log c) s = []
  /\ in_flight (after (do_log c) s) (call_key c) = true
  /\ turns_of (after (do_log c) s) (call_key c) = turns_of s (call_key c).
Proof.
  intros Hover Hdec Himg Hc Hsave He.
  assert (Ht : turn_data_of (self s) c = inl e).
  { unfold turn_data_of, decodes in *. rewrite Himg, Hc.
    fold (save_path (self s) c). rewrite Hsave, He.
    destruct (save_prompts (self s)), (c_decoder c) as [decode|];
      [destruct Hdec as [text ->]| | |]; reflexivity. }
  destruct (do_log_raises c s e Hover Ht) as (H1 & H2 & H3 & H4 & _).
  repeat split; try assumption.
  apply emitted_app. rewrite H2, app_nil_r. reflexivity.
Qed.

Lemma interrupted_save_escapes_witness :
  over_limit (boot (init "out" true true true None) ∅) (c_step demo_interrupted_call) = false
  /\ decodes (self (boot (init "out" true true true None) ∅)) demo_interrupted_call
  /\ snd (do_log demo_interrupted_call (boot (init "out" true true true None) ∅))
     = Raise (NonException "KeyboardInterrupt").
Proof.
  split; [reflexivity|]. split; [exact I|].
  exact (proj1 (interrupted_save_escapes demo_interrupted_call
                  (boot (init "out" true true true None) ∅)
                  (fun _ => Some (NonException "KeyboardInterrupt"))
                  (NonException "KeyboardInterrupt")
                  eq_refl I eq_refl eq_refl eq_refl eq_refl)).
Defined.

(** ** What [finalize_trajectories] does at the edges *)

Lemma positions_empty np ng : (np = 0 \/ ng = 0)%nat -> positions np ng = [].
Proof.
  intros [-> | ->]; [reflexivity|]. unfold positions, range.
  change (seq 0 0) with (@nil nat).
  generalize 0%nat. induction np as [|np IH]; intros a; [reflexivity|].
  cbn. apply IH.
Qed.

(** X8: with no outcomes at all (an empty list, or an empty first row) the
    loops of [finalize_trajectories] visit nothing: the call returns, writes
    no file and does not read the clock, and drops every trajectory in
    flight, of whatever step; the warning gives their number, and nothing is
    printed when nothing was in flight. *)
Theorem finalize_without_outcomes now trajectories n mode_arg s :
  trajectories = [] \/ trajectories !! 0%nat = Some [] ->
  returns (finalize_trajectories now trajectories n mode_arg) s = true
  /\ active_trajectories
       (self (after (finalize_trajectories now trajectories n mode_arg) s)) = ∅
  /\ trajectories_dir (world (after (finalize_trajectories now trajectories n mode_arg) s))
     = trajectories_dir (world s)
  /\ ticks (world (after (finalize_trajectories now trajectories n mode_arg) s))
     = ticks (world s)
  /\ emitted (finalize_trajectories now trajectories n mode_arg) s
     = match size (active_trajectories (self s)) with
       | O => []
       | S r => [Printed (warning (S r))]
       end.
Proof.
  intros Hempty.
  assert (Hpos : positions (length trajectories) (num_generations trajectories) = []).
  { apply positions_empty. destruct Hempty as [-> | H]; [left; reflexivity|].
    right. destruct trajectories as [|row rows]; [discriminate|].
    cbn in H. injection H as ->. reflexivity. }
  assert (Heq : finalize_trajectories now trajectories n mode_arg s = clean_up s).
  { rewrite finalize_trajectories_eq, Hpos. reflexivity. }
  unfold returns, emitted, after. rewrite Heq, clean_up_eq.
  destruct (size (active_trajectories (self s))) eqn:E; cbn.
  - apply map_size_empty_inv in E. rewrite drop_all. auto.
  - rewrite drop_app_length, <- E. auto.
Qed.

Lemma finalize_without_outcomes_witness :
  (([] : list (list Outcome)) = [] \/ ([] : list (list Outcome)) !! 0%nat = Some [])
  /\ emitted (finalize_trajectories demo_clock [] 0 "train") demo_three_in_flight
     = [Printed "Warning: 3 trajectories were not finalized properly"].
Proof.
  split; [left; reflexivity|].
  destruct (finalize_without_outcomes demo_clock [] 0 "train" demo_three_in_flight
              (or_introl eq_refl)) as (_ & _ & _ & _ & H).
  rewrite H. vm_compute. reflexivity.
Defined.

(** X9: [finalize_trajectories] returns exactly when every trajectory in
    flight at a position the loops visit has an outcome in its own row; the
    only exception it raises on its own is the [IndexError] of the lookup.
    In particular it returns whenever no row is shorter than row 0. *)
Theorem finalize_returns_iff now trajectories n mode_arg s :
  (returns (finalize_trajectories now trajectories n mode_arg) s = true
   <-> forall p g,
         (p < length trajectories)%nat -> (g < num_generations trajectories)%nat ->
         in_flight s (n, Z.of_nat p, Z.of_nat g) = true ->
         is_Some (outcome_at trajectories p g))
  /\ (returns (finalize_trajectories now trajectories n mode_arg) s = false ->
      snd (finalize_trajectories now trajectories n mode_arg s)
      = Raise (IndexError "list index out of range"))
  /\ (covers_row0 trajectories ->
      returns (finalize_trajectories now trajectories n mode_arg) s = true).
Proof.
  pose proof (finalize_spec now trajectories n mode_arg s) as H.
  split; [|split; [|apply finalize_returns]].
  - unfold returns.
    destruct (finalize_trajectories now trajectories n mode_arg s) as [s' [[]|e]]; cbn.
    + destruct H as (_ & _ & _ & Hout). split; [|reflexivity].
      intros _ p g Hp Hg Hfl. apply (Hout (p, g)); [|exact Hfl].
      apply elem_of_positions. auto.
    + destruct H as (pre & [p g] & post & Hpos & _ & Hfl & Hnone & _).
      split; [discriminate|]. intros Hall. exfalso.
      assert ((p, g) ∈ positions (length trajectories) (num_generations trajectories))
        as Hin by (rewrite Hpos; apply elem_of_app; right; left).
      apply elem_of_positions in Hin as [Hp Hg].
      destruct (Hall p g Hp Hg Hfl) as [o Ho]. cbn in Hnone. congruence.
  - unfold returns.
    destruct (finalize_trajectories now trajectories n mode_arg s) as [s' [[]|e]]; cbn;
      [discriminate|].
    destruct H as (_ & _ & _ & _ & _ & _ & _ & -> & _). reflexivity.
Qed.

(** ** The files [finalize_trajectories] leaves on disk *)

Lemma replay_lookup_written evs : forall dir name doc,
  NoDup (written_names evs) ->
  WroteTrajectory name doc ∈ evs ->
  replay evs dir !! name = Some doc.
Proof.
  induction evs as [|ev evs IH]; intros dir name doc Hnd Hin; [inversion Hin|].
  apply elem_of_cons in Hin as [<-|Hin].
  - cbn in *. apply NoDup_cons in Hnd as [Hout _].
    rewrite replay_lookup_other; [apply lookup_insert_eq|].
    apply Forall_forall. intros ev Hev name' doc' -> ->. apply Hout.
    clear -Hev. induction evs as [|[] evs IH]; cbn; [inversion Hev|..];
      apply elem_of_cons in Hev as [Hev|Hev]; try discriminate; auto.
    + injection Hev as -> _. left.
    + right. auto.
  - destruct ev as [path|name' doc'|path html|line]; cbn in *; try (apply IH; assumption).
    apply NoDup_cons in Hnd as [_ Hnd]. apply IH; assumption.
Qed.

Lemma sweep_events_all_written now trajectories n mode_arg s evs xs :
  Forall2 (fun ev x => exists tr,
             active_trajectories (self s) !! position_key n x = Some tr
             /\ writes_of now trajectories mode_arg tr x ev) evs xs ->
  length (written_names evs) = length evs.
Proof.
  induction 1 as [|ev x evs xs (tr & _ & o & i & _ & ->) _ IH]; [reflexivity|].
  cbn. rewrite IH. reflexivity.
Qed.

Lemma sweep_names now trajectories n mode_arg s evs xs :
  well_formed s ->
  Forall2 (fun ev x => exists tr,
             active_trajectories (self s) !! position_key n x = Some tr
             /\ writes_of now trajectories mode_arg tr x ev) evs xs ->
  written_names evs = (fun x => file_of (position_key n x)) <$> xs.
Proof.
  intros Hwf H.
  destruct (sweep_events_written now trajectories n mode_arg s evs xs H) as (_ & _ & Hn).
  clear H. induction Hn as [|name x names xs' (tr & Hact & ->) _ IH]; [reflexivity|].
  cbn. rewrite IH. f_equal. destruct (Hwf _ _ Hact) as (_ & -> & _). reflexivity.
Qed.

(** The file of an in-flight trajectory at a visited position, after a
    call that returns. *)
Lemma finalize_file_on_disk now trajectories n mode_arg s p g tr :
  well_formed s ->
  returns (finalize_trajectories now trajectories n mode_arg) s = true ->
  (p < length trajectories)%nat -> (g < num_generations trajectories)%nat ->
  active_trajectories (self s) !! (n, Z.of_nat p, Z.of_nat g) = Some tr ->
  exists o i,
    outcome_at trajectories p g = Some o
    /\ trajectories_dir (world (after (finalize_trajectories now trajectories n mode_arg) s))
         !! file_of (n, Z.of_nat p, Z.of_nat g)
       = Some (finalized_record mode_arg (now i) o tr).
Proof.
  intros Hwf Hret Hp Hg Hact.
  destruct (finalize_ok now trajectories n mode_arg s Hret) as (evs & Hev & _ & Hw & _).
  pose proof (sweep_names now trajectories n mode_arg s evs _ Hwf Hev) as Hnames.
  destruct (sweep_events_lookup now trajectories n mode_arg s evs _ (p, g) tr Hev)
    as (o & i & Ho & Hin); [|exact Hact|].
  { apply list_elem_of_filter. split; [|apply elem_of_positions; done].
    unfold in_flight, position_key. cbn. rewrite Hact. reflexivity. }
  exists o, i. split; [exact Ho|]. rewrite Hw. cbn.
  apply replay_lookup_written.
  - rewrite Hnames. apply NoDup_fmap_2.
    + intros x y H. apply file_of_inj, position_key_inj in H. exact H.
    + apply NoDup_filter, NoDup_positions.
  - destruct (Hwf _ _ Hact) as (_ & Hid & _). cbn [fst snd] in Hid.
    unfold file_of. cbn [fst snd]. rewrite <- Hid. exact Hin.
Qed.

(** X10: after a [finalize_trajectories] call that returns, on a logger of
    any history, the file of every trajectory of the step that was in
    flight at a visited position is in the trajectories directory, under the
    name ["{traj_id}.json"] of its key, and holds: the identifier and the
    key, the turns that were in flight, the mode given, a reading of the
    clock, the length, completion flags and reward of the outcome, with 0,
    [False], [False] and 0.0 for those the outcome lacks. Files of other
    names are untouched, and the clock is read once per file written. *)
Theorem finalized_files_are_on_disk now dir images prompts responses limit dir0
    ops trajectories n mode_arg :
  let s := run now ops (boot (init dir images prompts responses limit) dir0) in
  let s' := after (finalize_trajectories now trajectories n mode_arg) s in
  returns (finalize_trajectories now trajectories n mode_arg) s = true ->
  (forall p g tr,
     (p < length trajectories)%nat -> (g < num_generations trajectories)%nat ->
     active_trajectories (self s) !! (n, Z.of_nat p, Z.of_nat g) = Some tr ->
     exists o i,
       outcome_at trajectories p g = Some o
       /\ trajectories_dir (world s') !! file_of (n, Z.of_nat p, Z.of_nat g)
          = Some {| trajectory_id := traj_id_of n (Z.of_nat p) (Z.of_nat g);
                    turns := turns tr;
                    metadata :=
                      {| step := n; prompt_idx := Z.of_nat p; gen_idx := Z.of_nat g;
                         final := Some
                           {| mode := mode_arg;
                              timestamp := now i;
                              trajectory_length := default 0 (o_trajectory_length o);
                              done := default false (o_done o);
                              terminated_naturally :=
                                default false (o_terminated_naturally o) |} |};
                    reward := Some (default 0%float (o_reward o)) |})
  /\ (forall name,
        (forall p g, (p < length trajectories)%nat ->
                     (g < num_generations trajectories)%nat ->
                     in_flight s (n, Z.of_nat p, Z.of_nat g) = true ->
                     name <> file_of (n, Z.of_nat p, Z.of_nat g)) ->
        trajectories_dir (world s') !! name = trajectories_dir (world s) !! name)
  /\ ticks (world s')
     = (ticks (world s)
        + length (written_names
                    (emitted (finalize_trajectories now trajectories n mode_arg) s)))%nat.
Proof.
  intros s s' Hret.
  assert (Hwf : well_formed s) by apply run_well_formed, well_formed_boot.
  destruct (finalize_ok now trajectories n mode_arg s Hret) as (evs & Hev & _ & Hw & _).
  fold s' in Hw.
  set (tail := match size _ with O => [] | S r => [Printed (warning (S r))] end) in Hw.
  assert (Hem : emitted (finalize_trajectories now trajectories n mode_arg) s = evs ++ tail).
  { apply emitted_app. fold s'. rewrite Hw. cbn. rewrite app_assoc. reflexivity. }
  assert (Htail : written_names tail = []) by (subst tail; destruct (size _); reflexivity).
  pose proof (sweep_names now trajectories n mode_arg s evs _ Hwf Hev) as Hnames.
  assert (Hdir : trajectories_dir (world s') = replay evs (trajectories_dir (world s))).
  { rewrite Hw. reflexivity. }
  split; [|split].
  - intros p g tr Hp Hg Hact.
    destruct (finalize_file_on_disk now trajectories n mode_arg s p g tr Hwf Hret Hp Hg Hact)
      as (o & i & Ho & Hfile).
    exists o, i. split; [exact Ho|]. fold s' in Hfile. rewrite Hfile. f_equal.
    destruct (Hwf _ _ Hact) as (Hkey & Hid & Hfin & Hrew & _).
    unfold finalized_record, set_reward, update_metadata. cbn [fst snd] in Hid.
    rewrite Hid. cbn. unfold key_of in Hkey. injection Hkey as -> -> ->. reflexivity.
  - intros name Hname. rewrite Hdir. apply replay_lookup_other.
    apply Forall_forall. intros ev Hin name' doc -> ->.
    destruct (sweep_events_origin now trajectories n mode_arg s evs _ _ Hev Hin)
      as ([p g] & tr & o & i & Hx & Hact & _ & [= Hn _]).
    apply list_elem_of_filter in Hx as [Hfl Hx]. apply elem_of_positions in Hx as [Hp Hg].
    apply (Hname p g Hp Hg Hfl). rewrite Hn.
    destruct (Hwf _ _ Hact) as (_ & -> & _). reflexivity.
  - rewrite Hem, written_names_app, Htail, app_nil_r.
    rewrite (sweep_events_all_written now trajectories n mode_arg s evs _ Hev).
    rewrite Hw. reflexivity.
Qed.

Lemma finalized_files_are_on_disk_witness :
  returns (finalize_trajectories demo_clock [[demo_outcome]; [demo_outcome]] 0 "train")
          (run demo_clock (LogTurn <$> demo_calls)
               (boot (init "out" true true true None) ∅)) = true
  /\ ticks (world (after (finalize_trajectories demo_clock
                            [[demo_outcome]; [demo_outcome]] 0 "train")
                     (run demo_clock (LogTurn <$> demo_calls)
                          (boot (init "out" true true true None) ∅))))
     = 2%nat.
Proof.
  assert (H : returns
    (finalize_trajectories demo_clock [[demo_outcome]; [demo_outcome]] 0 "train")
    (run demo_clock (LogTurn <$> demo_calls)
         (boot (init "out" true true true None) ∅)) = true) by (vm_compute; reflexivity).
  split; [exact H|].
  destruct (finalized_files_are_on_disk demo_clock "out" true true true None ∅
              (LogTurn <$> demo_calls) [[demo_outcome]; [demo_outcome]] 0 "train" H)
    as (_ & _ & Hticks).
  rewrite Hticks. vm_compute. reflexivity.
Defined.

(** ** The counters and the limit over the life of a logger *)

(** X11: the per-step counters only grow: no operation lowers one, and
    [finalize_trajectories] leaves them all as they are. So a step whose
    limit has been reached stays closed for new trajectories for the life of
    the logger, also after it has been finalized and its entries are gone:
    finalizing a step frees none of its quota. *)
Theorem limit_is_never_released now ops s j :
  logged_count (self s) j <= logged_count (self (run now ops s)) j
  /\ (over_limit s j = true -> over_limit (run now ops s) j = true)
  /\ (forall trajectories n mode_arg,
        trajectories_logged_per_step
          (self (after (finalize_trajectories now trajectories n mode_arg) s))
        = trajectories_logged_per_step (self s)
        /\ over_limit (after (finalize_trajectories now trajectories n mode_arg) s) j
           = over_limit s j).
Proof.
  split; [|split; [apply run_over_limit|]].
  - revert s. induction ops as [|op ops IH]; intros s; [reflexivity|].
    rewrite run_cons. etrans; [apply (exec_logged_count now op s j) | apply IH].
  - intros trajectories n mode_arg.
    destruct (finalize_frame now trajectories n mode_arg s) as ((_ & _ & _ & _ & Hm) & Hl & _).
    split; [exact Hl|]. unfold over_limit, logged_count. rewrite Hm, Hl. reflexivity.
Qed.

Lemma step_count_same_keys (m m' : gmap Key Trajectory) j :
  (forall k, is_Some (m !! k) <-> is_Some (m' !! k)) ->
  size (filter (fun kv : Key * Trajectory => key_step (fst kv) = j) m)
  = size (filter (fun kv : Key * Trajectory => key_step (fst kv) = j) m').
Proof.
  intros H. rewrite <- !(size_dom (D := gset Key)). f_equal. apply set_eq. intros k.
  rewrite !elem_of_dom. unfold is_Some. setoid_rewrite map_lookup_filter_Some. cbn.
  split; intros (x & Hx & HP).
  - destruct (proj1 (H k) (ex_intro _ x Hx)) as [y Hy]. eauto.
  - destruct (proj2 (H k) (ex_intro _ x Hx)) as [y Hy]. eauto.
Qed.

Lemma step_count_insert_new (m : gmap Key Trajectory) k x j :
  m !! k = None ->
  size (filter (fun kv : Key * Trajectory => key_step (fst kv) = j) (<[k := x]> m))
  = (size (filter (fun kv : Key * Trajectory => key_step (fst kv) = j) m)
     + (if bool_decide (key_step k = j) then 1 else 0))%nat.
Proof.
  intros Hk. case_bool_decide as Hj.
  - rewrite map_filter_insert_True by exact Hj.
    rewrite map_size_insert_None; [lia|].
    apply map_lookup_filter_None_2. left. exact Hk.
  - rewrite map_filter_insert_not by (intros y; exact Hj). lia.
Qed.

Lemma step_count_sub (m m' : gmap Key Trajectory) j :
  (forall k x, m' !! k = Some x -> m !! k = Some x) ->
  (size (filter (fun kv : Key * Trajectory => key_step (fst kv) = j) m')
   <= size (filter (fun kv : Key * Trajectory => key_step (fst kv) = j) m))%nat.
Proof.
  intros H. apply map_subseteq_size, map_filter_subseteq_mono, map_subseteq_spec, H.
Qed.

Lemma in_flight_of_step_exec now op s j :
  Z.of_nat (in_flight_of_step (after (exec now op) s) j)
  - logged_count (self (after (exec now op) s)) j
  <= Z.of_nat (in_flight_of_step s j) - logged_count (self s) j.
Proof.
  destruct op as [c|trajectories n mode_arg]; cbn [exec].
  - unfold in_flight_of_step. rewrite do_log_logged_count, do_log_starts, do_log_active.
    destruct (over_limit s (c_step c)); cbn [negb andb]; [lia|]. cbv zeta.
    set (started := if in_flight s (call_key c) then _ else _).
    assert (Hst : size (filter (fun kv : Key * Trajectory => key_step (fst kv) = j) started)
                  = (size (filter (fun kv : Key * Trajectory => key_step (fst kv) = j)
                                  (active_trajectories (self s)))
                     + (if negb (in_flight s (call_key c)) && bool_decide (j = c_step c)
                        then 1 else 0))%nat).
    { subst started. unfold in_flight.
      destruct (active_trajectories (self s) !! call_key c) eqn:E; cbn [negb andb]; [lia|].
      rewrite step_count_insert_new by exact E.
      change (key_step (call_key c)) with (c_step c).
      do 2 case_bool_decide; try lia; congruence. }
    assert (Hal : forall t,
              size (filter (fun kv : Key * Trajectory => key_step (fst kv) = j)
                           (alter (push t) (call_key c) started))
              = size (filter (fun kv : Key * Trajectory => key_step (fst kv) = j) started)).
    { intros t. apply step_count_same_keys. intros k.
      destruct (decide (call_key c = k)) as [<-|Hne].
      - rewrite lookup_alter_eq. destruct (started !! call_key c); cbn; split; eauto.
        all: intros [? [=]].
      - rewrite lookup_alter_ne by done. reflexivity. }
    destruct (turn_data_of (self s) c); rewrite ?Hal, Hst;
      destruct (negb (in_flight s (call_key c)) && bool_decide (j = c_step c)); lia.
  - destruct (finalize_frame now trajectories n mode_arg s) as (_ & Hl & Hsub & _).
    pose proof (step_count_sub _ _ j Hsub) as Hle.
    unfold in_flight_of_step, logged_count. rewrite Hl. lia.
Qed.

(** X12: on a logger of any history, the number of entries in flight for
    a step is at most the step's counter; with a limit [m >= 0] configured,
    at no time are more than [m] trajectories of one step in flight. *)
Theorem in_flight_within_quota now dir images prompts responses limit dir0 ops j :
  Z.of_nat (in_flight_of_step
              (run now ops (boot (init dir images prompts responses limit) dir0)) j)
  <= logged_count
       (self (run now ops (boot (init dir images prompts responses limit) dir0))) j
  /\ (forall m, limit = Some m -> 0 <= m ->
        Z.of_nat (in_flight_of_step
                    (run now ops (boot (init dir images prompts responses limit) dir0)) j)
        <= m).
Proof.
  set (s0 := boot (init dir images prompts responses limit) dir0).
  assert (H0 : Z.of_nat (in_flight_of_step s0 j) - logged_count (self s0) j <= 0).
  { unfold in_flight_of_step, logged_count. cbn.
    rewrite map_filter_empty, map_size_empty, lookup_empty. reflexivity. }
  assert (Hinv : forall s, Z.of_nat (in_flight_of_step (run now ops s) j)
                           - logged_count (self (run now ops s)) j
                           <= Z.of_nat (in_flight_of_step s j) - logged_count (self s) j).
  { induction ops as [|op ops IH]; intros s; [reflexivity|].
    rewrite run_cons. etrans; [apply IH | apply in_flight_of_step_exec]. }
  specialize (Hinv s0). split; [lia|].
  intros m -> Hm.
  pose proof (logged_count_bounded now m ops s0 j eq_refl) as Hb.
  assert (logged_count (self s0) j = 0) as Hz.
  { unfold logged_count. cbn. rewrite lookup_empty. reflexivity. }
  rewrite Hz in Hb. specialize (Hb Hm). lia.
Qed.

(** ** The files a report selects *)

Lemma prefix_app p x : String.prefix p (p +:+ x) = true.
Proof.
  induction p as [|a p IH]; [destruct x; reflexivity|].
  change (String a p +:+ x) with (String a (p +:+ x)). cbn.
  destruct (ascii_dec a a); [exact IH | congruence].
Qed.

Lemma prefix_inv p : forall s, String.prefix p s = true -> exists x, s = p +:+ x.
Proof.
  induction p as [|a p IH]; intros s H; [exists s; reflexivity|].
  destruct s as [|b s]; [discriminate|]. cbn in H.
  destruct (ascii_dec a b) as [->|]; [|discriminate].
  destruct (IH s H) as [x ->]. exists x. reflexivity.
Qed.

Lemma string_length_app a b :
  String.length (a +:+ b) = (String.length a + String.length b)%nat.
Proof.
  induction a as [|ch a IH]; [reflexivity|].
  change (String ch a +:+ b) with (String ch (a +:+ b)). cbn. rewrite IH. reflexivity.
Qed.

Lemma rev_app_spec a : forall b, String.rev_app a b = String.rev a +:+ b.
Proof.
  unfold String.rev. induction a as [|ch a IH]; intros b; [reflexivity|].
  cbn. rewrite IH, (IH (String ch EmptyString)), string_app_assoc. reflexivity.
Qed.

Lemma rev_app_app a : forall b acc,
  String.rev_app (a +:+ b) acc = String.rev_app b (String.rev_app a acc).
Proof.
  induction a as [|ch a IH]; intros b acc; [reflexivity|].
  change (String ch a +:+ b) with (String ch (a +:+ b)). cbn. apply IH.
Qed.

Lemma rev_app_distr a b : String.rev (a +:+ b) = String.rev b +:+ String.rev a.
Proof. unfold String.rev at 1. rewrite rev_app_app. apply rev_app_spec. Qed.

Lemma matches_star_app pre mid suf :
  matches_star pre suf (pre +:+ mid +:+ suf) = true.
Proof.
  unfold matches_star. rewrite prefix_app, !rev_app_distr, string_app_assoc, prefix_app.
  rewrite !string_length_app. cbn. apply Nat.leb_le. lia.
Qed.

Lemma file_of_shape k :
  file_of k
  = ("step" +:+ format_0d 6 (key_step k) +:+ "_")
    +:+ ("p" +:+ format_0d 3 (snd (fst k)) +:+ "_g" +:+ format_0d 2 (snd k))
    +:+ ".json".
Proof.
  destruct k as [[n p] g]. unfold file_of, traj_id_of, key_step. cbn [fst snd].
  rewrite !string_app_assoc. reflexivity.
Qed.

(** X13: the pattern of a report for step [n] selects the file of a key
    exactly when the key belongs to step [n], whatever the number of digits
    of the steps (the file of step 10 is not taken for one of step 1, nor
    that of step 1000000 for one of step 100000); the pattern of a report
    for all steps selects the file of every key. *)
Theorem report_selects_exactly_its_step k n :
  selected (Some n) (file_of k) = bool_decide (key_step k = n)
  /\ selected None (file_of k) = true.
Proof.
  split.
  - case_bool_decide as Hn.
    + subst n. unfold selected. rewrite (file_of_shape k). apply matches_star_app.
    + apply not_true_is_false. intros Hsel. apply Hn.
      unfold selected, matches_star in Hsel.
      apply andb_true_iff in Hsel as [Hsel _]. apply andb_true_iff in Hsel as [Hpre _].
      apply prefix_inv in Hpre as [x Hx]. rewrite file_of_shape in Hx.
      rewrite !string_app_assoc in Hx.
      change ("step" +:+ ?y) with (String "s" (String "t" (String "e" (String "p" y)))) in Hx.
      injection Hx as Hx.
      change ("_" +:+ ?y) with (String "_" y) in Hx.
      apply (split_at_separator _ "_" _ _ _ _ eq_refl (format_0d_chars _ _)
               (format_0d_chars _ _)) in Hx as [Hx _].
      apply format_0d_inj in Hx. exact Hx.
  - unfold selected. rewrite (file_of_shape k).
    rewrite andb_true_iff. split; [|reflexivity].
    rewrite <- (string_app_assoc ("step" +:+ format_0d 6 (key_step k) +:+ "_") _ ".json").
    apply (matches_star_app EmptyString _ ".json").
Qed.

(** X14: the files a report goes through are exactly the files of the
    trajectories directory that its pattern selects, each once, in ascending
    order of their names. *)
Theorem report_files_are_sorted step_arg w :
  StronglySorted String.le (trajectory_files step_arg w)
  /\ NoDup (trajectory_files step_arg w)
  /\ (forall name,
        name ∈ trajectory_files step_arg w
        <-> is_Some (trajectories_dir w !! name) /\ selected step_arg name = true).
Proof.
  unfold trajectory_files.
  set (l := filter (fun name => selected step_arg name = true)
                   (elements (dom (trajectories_dir w)))).
  assert (Hnd : NoDup l) by apply NoDup_filter, NoDup_elements.
  split; [apply (StronglySorted_merge_sort String.le)|]. split.
  - rewrite merge_sort_Permutation. exact Hnd.
  - intros name. rewrite merge_sort_Permutation. subst l.
    rewrite list_elem_of_filter, elem_of_elements, elem_of_dom. tauto.
Qed.

(** ** Writing a report *)

Lemma elem_of_trajectory_files step_arg w name :
  name ∈ trajectory_files step_arg w
  <-> is_Some (trajectories_dir w !! name) /\ selected step_arg name = true.
Proof.
  unfold trajectory_files. rewrite merge_sort_Permutation.
  rewrite list_elem_of_filter, elem_of_elements, elem_of_dom. tauto.
Qed.

Lemma concat_map_app {A} (f : A -> string) xs ys :
  concat_map f (xs ++ ys) = concat_map f xs +:+ concat_map f ys.
Proof.
  induction xs as [|x xs IH]; [reflexivity|].
  cbn. rewrite IH, string_app_assoc. reflexivity.
Qed.

Section Reports.

Variable format_2f : float -> string.

(** The loop over the files: it changes nothing, and either renders every
    file or stops at the first one without final metadata. *)
Lemma render_files_spec names : forall html s,
  (forall name, name ∈ names -> is_Some (trajectories_dir (world s) !! name)) ->
  (Forall (fun name => exists doc, trajectories_dir (world s) !! name = Some doc
                                   /\ finalized doc) names
   /\ render_files format_2f names html s
      = (s, Ok (html +:+ concat_map (block_of format_2f (world s)) names)))
  \/ (Exists (fun name => exists doc, trajectories_dir (world s) !! name = Some doc
                                      /\ final (metadata doc) = None) names
      /\ render_files format_2f names html s = (s, Raise (KeyError "trajectory_length"))).
Proof.
  induction names as [|name names IH]; intros html s Hdir.
  - left. split; [constructor|]. cbn. unfold ret.
    replace (html +:+ EmptyString) with html; [reflexivity|].
    clear. induction html as [|a html IH]; [reflexivity|].
    change (String a html +:+ EmptyString) with (String a (html +:+ EmptyString)).
    rewrite <- IH. reflexivity.
  - destruct (Hdir name) as [doc Hdoc]; [left|].
    cbn [render_files concat_map]. unfold bind, gets. rewrite Hdoc.
    unfold block_of at 1. rewrite Hdoc.
    destruct (html_trajectory format_2f doc) as [e|block] eqn:Hb.
    + right. unfold html_trajectory in Hb.
      destruct (final (metadata doc)) eqn:Hfin; [discriminate|]. injection Hb as <-.
      split; [|reflexivity]. left. eauto.
    + assert (Hfin : finalized doc).
      { unfold finalized. unfold html_trajectory in Hb.
        destruct (final (metadata doc)); [eauto | discriminate]. }
      destruct (IH (html +:+ block) s) as [[Hall Heq]|[Hex Heq]].
      * intros name' Hin. apply Hdir. right. exact Hin.
      * left. split; [constructor; [eauto | exact Hall]|].
        rewrite Heq, string_app_assoc. reflexivity.
      * right. split; [right; exact Hex | exact Heq].
Qed.

Lemma generate_html_report_cases step_arg s :
  let found := trajectory_files step_arg (world s) in
  (found = []
   /\ generate_html_report format_2f step_arg s
      = (with_world (emit (Printed ("No trajectories found for step "
                                    +:+ str_step step_arg))) s, Ok None))
  \/ (found <> []
      /\ Forall (fun name => exists doc, trajectories_dir (world s) !! name = Some doc
                                         /\ finalized doc) found
      /\ generate_html_report format_2f step_arg s
         = (with_world
              (emits [WroteReport (report_path (output_dir (self s)) step_arg)
                                  (report_html format_2f (world s) found);
                      Printed ("âœ“ HTML report saved to: "
                               +:+ report_path (output_dir (self s)) step_arg)]) s,
            Ok (Some (report_path (output_dir (self s)) step_arg))))
  \/ (found <> []
      /\ Exists (fun name => exists doc, trajectories_dir (world s) !! name = Some doc
                                         /\ final (metadata doc) = None) found
      /\ generate_html_report format_2f step_arg s
         = (s, Raise (KeyError "trajectory_length"))).
Proof.
  intros found. unfold generate_html_report, bind, gets. fold found.
  destruct found as [|name names] eqn:Hfound.
  - left. split; [reflexivity|]. reflexivity.
  - right.
    destruct (render_files_spec (name :: names) html_head s) as [[Hall Heq]|[Hex Heq]].
    + intros name' Hin. rewrite <- Hfound in Hin.
      apply elem_of_trajectory_files in Hin. tauto.
    + left. split; [discriminate|]. split; [exact Hall|].
      rewrite Heq. unfold print, modify, ret, report_path, report_html.
      destruct s as [L [d i t]]. unfold with_world, emits, emit. cbn.
      rewrite <- app_assoc. destruct step_arg; reflexivity.
    + right. split; [discriminate|]. split; [exact Hex|]. rewrite Heq. reflexivity.
Qed.


(** X16: a selected file without the final metadata makes
    [generate_html_report] raise the [KeyError] of
    [metadata['trajectory_length']]: no report is written, nothing is
    printed, and the system is as before. *)
Theorem report_of_unfinalized_file_raises step_arg s name doc :
  trajectories_dir (world s) !! name = Some doc ->
  selected step_arg name = true ->
  final (metadata doc) = None ->
  generate_html_report format_2f step_arg s = (s, Raise (KeyError "trajectory_length")).
Proof.
  intros Hdoc Hsel Hnone.
  assert (Hin : name ∈ trajectory_files step_arg (world s)).
  { apply elem_of_trajectory_files. eauto. }
  destruct (generate_html_report_cases step_arg s)
    as [[Hnil _]|[(_ & Hall & _)|(_ & _ & Heq)]].
  - rewrite Hnil in Hin. inversion Hin.
  - rewrite Forall_forall in Hall. destruct (Hall name Hin) as (doc' & Hdoc' & [fin Hfin]).
    congruence.
  - exact Heq.
Qed.

(** X17: [generate_html_report] only reads the recorder: in every case
    (nothing found, report written, exception) the logger object, the
    trajectories directory and the clock are as before, no trajectory file
    is written, and the only exception it raises on its own is the
    [KeyError] of a file without final metadata. *)
Theorem report_is_read_only step_arg s :
  self (after (generate_html_report format_2f step_arg) s) = self s
  /\ trajectories_dir (world (after (generate_html_report format_2f step_arg) s))
     = trajectories_dir (world s)
  /\ ticks (world (after (generate_html_report format_2f step_arg) s)) = ticks (world s)
  /\ written_names (emitted (generate_html_report format_2f step_arg) s) = []
  /\ (returns (generate_html_report format_2f step_arg) s = true
      \/ snd (generate_html_report format_2f step_arg s)
         = Raise (KeyError "trajectory_length")).
Proof.
  unfold emitted, after, returns.
  destruct (generate_html_report_cases step_arg s)
    as [[_ Heq]|[(_ & _ & Heq)|(_ & _ & Heq)]]; rewrite Heq; cbn;
    rewrite ?drop_app_length, ?drop_all; auto 10.
Qed.

End Reports.

(** ** Reports over the files of a logger *)

Lemma replay_lookup_inv evs : forall dir name doc,
  replay evs dir !! name = Some doc ->
  dir !! name = Some doc \/ WroteTrajectory name doc ∈ evs.
Proof.
  induction evs as [|ev evs IH]; intros dir name doc H; [left; exact H|].
  destruct ev as [path|name' doc'|path html|line]; cbn in H;
    try (destruct (IH _ _ _ H) as [Hd|Hin]; [left; exact Hd | right; right; exact Hin]).
  destruct (IH _ _ _ H) as [Hd|Hin]; [|right; right; exact Hin].
  destruct (decide (name' = name)) as [->|Hne].
  - rewrite lookup_insert_eq in Hd. injection Hd as ->. right. left.
  - rewrite lookup_insert_ne in Hd by exact Hne. left. exact Hd.
Qed.

(** Every file of a directory that only a logger has written is the
    finalized file of its key. *)
Lemma logger_directory now dir images prompts responses limit ops name doc :
  trajectories_dir
    (world (run now ops (boot (init dir images prompts responses limit) ∅)))
    !! name = Some doc ->
  finalized doc /\ name = file_of (key_of doc).
Proof.
  destruct (run_events now well_formed
    (fun ev => forall name doc, ev = WroteTrajectory name doc ->
               finalized doc /\ name = file_of (key_of doc)) ops)
    with (s := boot (init dir images prompts responses limit) ∅)
    as (_ & evs & _ & Hdir & Hall).
  - intros s op _. apply exec_well_formed.
  - intros s ev Hwf Hal name' doc' ->.
    destruct Hal as (k & tr & Hact & -> & _ & _ & Hkey & Hfin & _).
    split; [exact Hfin|]. destruct (Hwf k tr Hact) as (Hk & -> & _).
    rewrite Hkey, Hk. reflexivity.
  - apply well_formed_boot.
  - rewrite Hdir. cbn. intros H. apply replay_lookup_inv in H as [H|H].
    + rewrite lookup_empty in H. discriminate.
    + rewrite Forall_forall in Hall. eapply Hall; [exact H | reflexivity].
Qed.

(** X18: over a directory that only a logger has written (any history,
    starting from an empty directory), [generate_html_report] never raises;
    the report for step [n] goes through exactly the files whose metadata
    carry the step [n], and the report for all steps through every file. *)
Theorem report_over_logger_files format_2f now dir images prompts responses limit
    ops step_arg :
  returns (generate_html_report format_2f step_arg)
          (run now ops (boot (init dir images prompts responses limit) ∅)) = true
  /\ (forall n name,
        name ∈ trajectory_files (Some n)
                 (world (run now ops (boot (init dir images prompts responses limit) ∅)))
        <-> exists doc,
              trajectories_dir
                (world (run now ops (boot (init dir images prompts responses limit) ∅)))
                !! name = Some doc
              /\ step (metadata doc) = n)
  /\ (forall name,
        name ∈ trajectory_files None
                 (world (run now ops (boot (init dir images prompts responses limit) ∅)))
        <-> is_Some (trajectories_dir
                       (world (run now ops
                                 (boot (init dir images prompts responses limit) ∅)))
                       !! name)).
Proof.
  set (s := run now ops (boot (init dir images prompts responses limit) ∅)).
  assert (Hsel : forall name doc,
            trajectories_dir (world s) !! name = Some doc ->
            finalized doc
            /\ (forall n, selected (Some n) name = bool_decide (step (metadata doc) = n))
            /\ selected None name = true).
  { intros name doc Hdoc.
    destruct (logger_directory now dir images prompts responses limit ops name doc Hdoc)
      as [Hfin ->].
    split; [exact Hfin|]. split.
    - intros n. unfold selected. rewrite (file_of_shape (key_of doc)).
      case_bool_decide as Hn.
      + subst n. apply matches_star_app.
      + apply not_true_is_false. intros Hm. apply Hn.
        unfold matches_star in Hm.
        apply andb_true_iff in Hm as [Hm _]. apply andb_true_iff in Hm as [Hpre _].
        apply prefix_inv in Hpre as [x Hx]. rewrite !string_app_assoc in Hx.
        change ("step" +:+ ?y) with (String "s" (String "t" (String "e" (String "p" y)))) in Hx.
        injection Hx as Hx.
        change ("_" +:+ ?y) with (String "_" y) in Hx.
        apply (split_at_separator _ "_" _ _ _ _ eq_refl (format_0d_chars _ _)
                 (format_0d_chars _ _)) in Hx as [Hx _].
        apply format_0d_inj in Hx. exact Hx.
    - unfold selected. rewrite (file_of_shape (key_of doc)).
      rewrite andb_true_iff. split; [|reflexivity].
      rewrite <- (string_app_assoc ("step" +:+ format_0d 6 (key_step (key_of doc)) +:+ "_")
                                   _ ".json").
      apply (matches_star_app EmptyString _ ".json"). }
  split; [|split].
  - unfold returns.
    destruct (generate_html_report_cases format_2f step_arg s)
      as [[_ Heq]|[(_ & _ & Heq)|(_ & Hex & _)]]; [rewrite Heq; reflexivity..|].
    exfalso. apply Exists_exists in Hex as (name & _ & doc & Hdoc & Hnone).
    destruct (Hsel name doc Hdoc) as ([fin Hfin] & _). congruence.
  - intros n name. rewrite elem_of_trajectory_files. split.
    + intros [[doc Hdoc] Hs]. exists doc. split; [exact Hdoc|].
      destruct (Hsel name doc Hdoc) as (_ & Hn & _). rewrite Hn in Hs.
      apply bool_decide_eq_true in Hs. exact Hs.
    + intros (doc & Hdoc & Hn). split; [eauto|].
      destruct (Hsel name doc Hdoc) as (_ & Hn' & _). rewrite Hn'.
      apply bool_decide_eq_true. exact Hn.
  - intros name. rewrite elem_of_trajectory_files. split; [tauto|].
    intros [doc Hdoc]. split; [eauto|]. apply (Hsel name doc Hdoc).
Qed.




Lemma report_of_unfinalized_file_raises_witness :
  trajectories_dir (world demo_unfinalized_disk) !! "step000000_p000_g00.json"
  = Some (fresh_trajectory (0, 0, 0))
  /\ selected None "step000000_p000_g00.json" = true
  /\ final (metadata (fresh_trajectory (0, 0, 0))) = None
  /\ generate_html_report (fun _ => "1.00") None demo_unfinalized_disk
     = (demo_unfinalized_disk, Raise (KeyError "trajectory_length")).
Proof.
  assert (H1 : trajectories_dir (world demo_unfinalized_disk) !! "step000000_p000_g00.json"
               = Some (fresh_trajectory (0, 0, 0))) by (vm_compute; reflexivity).
  assert (H2 : selected None "step000000_p000_g00.json" = true) by (vm_compute; reflexivity).
  split; [exact H1|]. split; [exact H2|]. split; [reflexivity|].
  exact (report_of_unfinalized_file_raises (fun _ => "1.00") None demo_unfinalized_disk
           _ _ H1 H2 eq_refl).
Defined.
